(** * Ev0 prematch value engine: odds normalisation, edge, selection,
      exposure, pricing and login, verified against the repository.

    Prices, probabilities and stakes are Python/TypeScript floats in the
    repository.  They are modelled as exact rationals ([Q]) wherever the
    code only adds, multiplies, divides and compares, so every definition
    below evaluates; the Poisson probability, which needs the exponential,
    is modelled over the real numbers ([R]).  Timestamps are integers
    (seconds, UTC). *)

From Stdlib Require Import QArith Qabs List Bool String ZArith Lia.
From Stdlib Require Import Reals Psatz.
From Stdlib Require Import Sorted Permutation.
Import ListNotations.

Local Open Scope Q_scope.

(** ** Rational helpers shared by the modules *)

Fixpoint Qsum (l : list Q) : Q :=
  match l with
  | [] => 0
  | x :: r => x + Qsum r
  end.

(** Python [a < b] on numbers. *)
Definition Qlt_bool (a b : Q) : bool := negb (Qle_bool b a).

(** [approxQ tol x y]: [x] and [y] agree within [tol]. *)
Definition approxQ (tol x y : Q) : Prop := Qabs (x - y) <= tol.

(** A value printed with three decimals: within half a unit of the last
    digit. *)
Definition approx3 (x y : Q) : Prop := approxQ 0.0005 x y.

(** A value printed with two decimals. *)
Definition approx2 (x y : Q) : Prop := approxQ 0.005 x y.

(** ** Edge (docs/06-strategy section 3, docs/04-odds-normalization) *)

Module Edge.

(** [EV0]: fair odds derived from the model probability, [1 / p]
    (glossary, data dictionary). *)
Definition EV0 (model_prob : Q) : Q := 1 / model_prob.

(** [edge_pct = (model_prob * bookmaker_odds) - 1] *)
Definition edge_pct (model_prob bookmaker_odds : Q) : Q :=
  (model_prob * bookmaker_odds) - 1.

(** [edge = (p_model - p_market_clean) / p_market_clean] *)
Definition edge_prob (p_model p_market_clean : Q) : Q :=
  (p_model - p_market_clean) / p_market_clean.

(** [edge = (odds_market_clean / EV0) - 1] *)
Definition edge_odds_ratio (odds_market_clean ev0 : Q) : Q :=
  (odds_market_clean / ev0) - 1.

End Edge.

(** ** Odds normalisation and margin removal
       (docs/04-odds-normalization, Steps 1 to 3) *)

Module OddsNormalization.

(** Step 1: [p = 1 / odds]. *)
Definition implied_probability (odds : Q) : Q := 1 / odds.

(** Step 2, simple normalization: [p_clean = p / sum(p_all_selections)]. *)
Definition remove_overround (p_all_selections : list Q) : list Q :=
  map (fun p => p / Qsum p_all_selections) p_all_selections.

(** Step 3: [odds_clean = 1 / p_clean]. *)
Definition odds_clean (p_clean : Q) : Q := 1 / p_clean.

(** The raw implied probabilities of one market group. *)
Definition implied_probabilities (market : list Q) : list Q :=
  map implied_probability market.

(** Steps 1 and 2 chained over one market group. *)
Definition clean_probabilities (market : list Q) : list Q :=
  remove_overround (implied_probabilities market).

(** Steps 1 to 3 chained. *)
Definition clean_odds (market : list Q) : list Q :=
  map odds_clean (clean_probabilities market).

(** The selections quoted from the worked market: Player A 2.20,
    Player B 3.50, Player C 9.00.  Their implied probabilities sum to
    590/693, about 0.851: they are an excerpt of the market, whose raw
    implied sum is quoted as 1.023. *)
Definition example_selections : list Q := [2.20; 3.50; 9.00].

(** A complete market holding the quoted selections: the one further
    selection brings the raw implied sum to exactly 1.023. *)
Definition example_market : list Q := [2.20; 3.50; 9.00; 693000 # 118939].

End OddsNormalization.

(** ** Override allocator (docs/03-modeling, Mode Override Top-Down) *)

Module Override.

(** Modelled from the spec: the repository documents the top-down mode
    (the operator supplies the team xG and the model only distributes it)
    but not the allocation function; the spec gives it as
    [lambda_i' = lambda_i * (override_total / sum lambda_bottom_up)]. *)
Definition rescale (override_total : Q) (lambdas : list Q) : list Q :=
  map (fun lam => lam * (override_total / Qsum lambdas)) lambdas.

(** [team_xg_override] is null when the model runs bottom-up
    ([model_outputs.team_xg_override]: Null if auto). *)
Definition allocate (team_xg_override : option Q) (lambdas : list Q)
  : list Q :=
  match team_xg_override with
  | None => lambdas
  | Some total => rescale total lambdas
  end.

Definition example_lambdas : list Q := [0.40; 0.30; 0.20].

End Override.

(** ** Phases of the strategy *)

Inductive Phase : Type := EARLY | LINEUP.

Definition phase_eqb (a b : Phase) : bool :=
  match a, b with
  | EARLY, EARLY | LINEUP, LINEUP => true
  | _, _ => false
  end.

(** ** Selection strategy (docs/06-strategy) *)

Module Strategy.

Local Open Scope string_scope.

(** A prediction as [select_bets] reads it: the keys ['projected_mins'],
    ['is_confirmed_starter'] and ['edge'], with the identifiers of
    [model_outputs] that exposure control needs. *)
Record Prediction : Type := {
  fixture_id : string;
  player_id : string;
  match_day : string;
  projected_mins : Q;
  is_confirmed_starter : bool;
  edge : Q
}.

(** [odds_snapshots.odds_data]: map from canonical player id to decimal
    odd. *)
Definition OddsData : Type := list (string * Q).

Fixpoint odds_of (odds : OddsData) (player : string) : option Q :=
  match odds with
  | [] => None
  | (p, o) :: rest => if String.eqb p player then Some o else odds_of rest player
  end.

(** Mise Standard: 1 Unité. *)
Definition FLAT_UNIT : Q := 1.

(** [create_bet(pred, stake=...)]. *)
Record Bet : Type := {
  bet_pred : Prediction;
  stake : Q
}.

Definition create_bet (pred : Prediction) (stake : Q) : Bet :=
  {| bet_pred := pred; stake := stake |}.

(** Section 4, the documented filter table. *)
Definition max_odds (phase : Phase) : Q :=
  match phase with
  | EARLY => 15.00
  | LINEUP => 12.00
  end.

(** [min_mins = 70 if phase == "EARLY" else 0] *)
Definition min_mins (phase : Phase) : Q :=
  if phase_eqb phase EARLY then 70 else 0.

(** [min_edge = 0.05 if phase == "EARLY" else 0.03] *)
Definition min_edge (phase : Phase) : Q :=
  if phase_eqb phase EARLY then 0.05 else 0.03.

(** [stake_factor = 0.75 if phase == "EARLY" else 1.0] *)
Definition stake_factor (phase : Phase) : Q :=
  if phase_eqb phase EARLY then 0.75 else 1.0.

(** One turn of the [for pred in predictions] loop: [None] is
    [continue], [Some b] is [bets.append(b)]. *)
Definition select_one (phase : Phase) (pred : Prediction) : option Bet :=
  (* 1. Filtre Titulaire *)
  if phase_eqb phase EARLY && Qlt_bool (projected_mins pred) (min_mins phase)
  then None
  else if phase_eqb phase LINEUP && negb (is_confirmed_starter pred)
  then None
  (* 2. Filtre Edge *)
  else if Qlt_bool (edge pred) (min_edge phase)
  then None
  (* 3. Sizing *)
  else Some (create_bet pred (FLAT_UNIT * stake_factor phase)).

(** The list [bets] when the loop ends.  The argument [odds] is received
    and never read, as in the source. *)
Fixpoint candidate_bets (predictions : list Prediction) (odds : OddsData)
    (phase : Phase) : list Bet :=
  match predictions with
  | [] => []
  | pred :: rest =>
      match select_one phase pred with
      | None => candidate_bets rest odds phase
      | Some b => b :: candidate_bets rest odds phase
      end
  end.

(** *** Exposure control *)

(** Section 6, the exposure table. *)
Definition MAX_PER_MATCH : Q := 4.
Definition MAX_PER_PLAYER : Q := 1.5.
Definition MAX_PER_DAY : Q := 15.

(** [decisions.status] and [decisions.rejection_reason]. *)
Inductive DecisionStatus : Type := RECOMMENDED | REJECTED | EXECUTED.

Inductive RejectionReason : Type := EXPOSURE_CAP.

Record Decision : Type := {
  dec_bet : Bet;
  dec_stake : Q;
  status : DecisionStatus;
  rejection_reason : option RejectionReason
}.

Definition same_match (a b : Bet) : bool :=
  String.eqb (fixture_id (bet_pred a)) (fixture_id (bet_pred b)).

Definition same_player (a b : Bet) : bool :=
  String.eqb (player_id (bet_pred a)) (player_id (bet_pred b)).

Definition same_day (a b : Bet) : bool :=
  String.eqb (match_day (bet_pred a)) (match_day (bet_pred b)).

(** Units already committed by the bets of [ledger] that share a key
    with [b].  The ledger holds the bets recommended so far, of both
    phases. *)
Definition exposure (same : Bet -> Bet -> bool) (ledger : list Bet)
    (b : Bet) : Q :=
  Qsum (map stake (filter (fun a => same a b) ledger)).

(** Modelled from the spec: a candidate exceeds a cap when adding its
    stake takes the match, the player or the day above its limit. *)
Definition exceeds_cap (ledger : list Bet) (b : Bet) : bool :=
  Qlt_bool MAX_PER_MATCH (exposure same_match ledger b + stake b)
  || Qlt_bool MAX_PER_PLAYER (exposure same_player ledger b + stake b)
  || Qlt_bool MAX_PER_DAY (exposure same_day ledger b + stake b).

Definition reject (b : Bet) : Decision :=
  {| dec_bet := b; dec_stake := stake b; status := REJECTED;
     rejection_reason := Some EXPOSURE_CAP |}.

Definition recommend (b : Bet) : Decision :=
  {| dec_bet := b; dec_stake := stake b; status := RECOMMENDED;
     rejection_reason := None |}.

(** Modelled from the spec: [apply_exposure_caps] is called by
    [select_bets] and defined nowhere in the repository.  Candidates are
    taken in order; one that would exceed a cap is rejected with reason
    [EXPOSURE_CAP], not resized; one within all caps is recommended with
    its stake and joins the ledger. *)
Fixpoint apply_exposure_caps (ledger : list Bet) (bets : list Bet)
  : list Decision :=
  match bets with
  | [] => []
  | b :: rest =>
      if exceeds_cap ledger b
      then reject b :: apply_exposure_caps ledger rest
      else recommend b :: apply_exposure_caps (b :: ledger) rest
  end.

(** The ledger once [bets] have been through exposure control. *)
Fixpoint ledger_after (ledger : list Bet) (bets : list Bet) : list Bet :=
  match bets with
  | [] => ledger
  | b :: rest =>
      if exceeds_cap ledger b
      then ledger_after ledger rest
      else ledger_after (b :: ledger) rest
  end.

(** Every match, player and day stands within its cap. *)
Definition within_caps (ledger : list Bet) : Prop :=
  forall k : Bet,
    exposure same_match ledger k <= MAX_PER_MATCH
    /\ exposure same_player ledger k <= MAX_PER_PLAYER
    /\ exposure same_day ledger k <= MAX_PER_DAY.

(** [select_bets(predictions, odds, phase)]; the ledger of earlier
    recommendations is the state exposure control reads. *)
Definition select_bets (ledger : list Bet) (predictions : list Prediction)
    (odds : OddsData) (phase : Phase) : list Decision :=
  apply_exposure_caps ledger (candidate_bets predictions odds phase).

(** A candidate with a large edge whose bookmaker odd, 20.00, is above
    the documented EARLY maximum of 15.00. *)
Definition long_shot : Prediction :=
  {| fixture_id := "2026-01-30_PSG_Lyon";
     player_id := "psg_mbappe_kylian";
     match_day := "2026-01-30";
     projected_mins := 90;
     is_confirmed_starter := true;
     edge := 0.5 |}.

Definition long_shot_odds : OddsData := [("psg_mbappe_kylian", 20.00)].

End Strategy.

(** ** Backtest integrity (docs/05-backtesting) *)

Module Backtest.

Local Open Scope Z_scope.

(** A row of [player_stats_snapshots] or [odds_snapshots]: what was
    known at [as_of_utc] ([ingested_at] for odds). *)
Record Snapshot : Type := {
  snapshot_id : Z;
  as_of_utc : Z
}.

(** Règle n°1, the verification clause:
    [WHERE as_of_utc <= bet_timestamp]. *)
Definition snapshots_as_of (db : list Snapshot) (bet_timestamp : Z)
  : list Snapshot :=
  filter (fun s => as_of_utc s <=? bet_timestamp) db.

(** A decision replayed at [bet_timestamp] from the snapshots [inputs]. *)
Record DecisionPoint : Type := {
  bet_timestamp : Z;
  inputs : list Snapshot
}.

(** One walk-forward window: the training data and the decisions of the
    test period that follows. *)
Record Fold : Type := {
  train : list Snapshot;
  test : list DecisionPoint
}.

Definition WEEK : Z := 604800.

(** Weeks are counted from 1 at the start of the season. *)
Definition week_of (season_start ts : Z) : Z :=
  (ts - season_start) / WEEK + 1.

(** Walk-forward, steps 1 to 4: train on weeks 1 to [k], test on week
    [k + 1]; every test decision reads the store through
    [snapshots_as_of]. *)
Definition fold_at (season_start : Z) (db : list Snapshot)
    (bets : list Z) (k : Z) : Fold :=
  {| train := filter (fun s => week_of season_start (as_of_utc s) <=? k) db;
     test := map (fun t => {| bet_timestamp := t;
                              inputs := snapshots_as_of db t |})
                 (filter (fun t => week_of season_start t =? k + 1) bets) |}.

(** Step 5, repeat: [n] windows, the first one training on weeks 1 to
    [k]. *)
Fixpoint walk_forward (season_start : Z) (db : list Snapshot)
    (bets : list Z) (k : Z) (n : nat) : list Fold :=
  match n with
  | O => []
  | S m => fold_at season_start db bets k
           :: walk_forward season_start db bets (k + 1) m
  end.

(** The earliest timestamp of a test window, when it has one. *)
Fixpoint earliest (ts : list Z) : option Z :=
  match ts with
  | [] => None
  | t :: rest =>
      match earliest rest with
      | None => Some t
      | Some m => Some (Z.min t m)
      end
  end.

Definition earliest_test (f : Fold) : option Z :=
  earliest (map bet_timestamp (test f)).

(** Modelled from the spec: every snapshot used for a decision at T has
    [as_of <= T]. *)
Definition no_look_ahead (dp : DecisionPoint) : bool :=
  forallb (fun s => as_of_utc s <=? bet_timestamp dp) (inputs dp).

(** Modelled from the spec: all training timestamps are strictly less
    than the earliest test-window timestamp. *)
Definition train_before_test (f : Fold) : bool :=
  match earliest_test f with
  | None => true
  | Some t0 => forallb (fun s => as_of_utc s <? t0) (train f)
  end.

Definition fold_ok (f : Fold) : bool :=
  train_before_test f && forallb no_look_ahead (test f).

Inductive BacktestError : Type := LeakageViolation.

(** The part of the standardized report the integrity rules bear on. *)
Record Report : Type := {
  run_id : Z;
  total_bets : nat
}.

(** Modelled from the spec: the repository states the no-look-ahead rule
    and the walk-forward protocol but has no backtest engine; a run
    checks every window and either reports on all of them or raises
    [LeakageViolation] and reports nothing. *)
Definition run_backtest (id : Z) (folds : list Fold)
  : BacktestError + Report :=
  if forallb fold_ok folds
  then inr {| run_id := id;
              total_bets := List.length (flat_map test folds) |}
  else inl LeakageViolation.

End Backtest.

(** ** Pricing: intensity to probability *)

Module Pricing.

Local Open Scope R_scope.

Fixpoint Rsum (l : list R) : R :=
  match l with
  | [] => 0
  | x :: r => x + Rsum r
  end.

(** Modelled from the spec: [P(event >= 1) = 1 - e^(-lambda)]; the
    repository names the Poisson model and shows one priced value
    (lambda 0.47, P(score) 37.5 percent) but holds no pricing code. *)
Definition event_probability (lambda : R) : R := 1 - exp (- lambda).

(** Modelled from the spec: the goalscorer lambda is the sum of the
    open-play and the penalty component ([inputs_used.lambda_open_play],
    [inputs_used.lambda_penalty] in the pricing contract); the goalscorer
    module itself is absent. *)
Definition goalscorer_probability (lambda_open_play lambda_penalty : R) : R :=
  event_probability (lambda_open_play + lambda_penalty).

(** The weighting profiles of the assist module. *)
Inductive PositionProfile : Type := AxialCreator | WingOrFullBack | Forward.

Inductive Metric : Type :=
  xA_per_90 | KeyPasses | SCA | PassesSurface | Centres.

Definition metrics : list Metric :=
  [xA_per_90; KeyPasses; SCA; PassesSurface; Centres].

(** Section 1, Profils de Pondération. *)
Definition GET_WEIGHTS (position_profile : PositionProfile) (m : Metric) : R :=
  match position_profile, m with
  | AxialCreator, xA_per_90 => 0.40
  | AxialCreator, KeyPasses => 0.30
  | AxialCreator, SCA => 0.20
  | AxialCreator, PassesSurface => 0.10
  | AxialCreator, Centres => 0
  | WingOrFullBack, xA_per_90 => 0.35
  | WingOrFullBack, KeyPasses => 0.20
  | WingOrFullBack, SCA => 0.10
  | WingOrFullBack, PassesSurface => 0.10
  | WingOrFullBack, Centres => 0.25
  | Forward, xA_per_90 => 0.50
  | Forward, KeyPasses => 0.20
  | Forward, SCA => 0.30
  | Forward, PassesSurface => 0
  | Forward, Centres => 0
  end.

Section Assist.

Variable league_avg : Metric -> R.
Variable CALIBRATION_CONSTANT : R.

(** [calculate_assist_lambda(player_stats, position_profile)] *)
Definition calculate_assist_lambda (player_stats : Metric -> R)
    (position_profile : PositionProfile) : R :=
  let weights := GET_WEIGHTS position_profile in
  let creation_score :=
    Rsum (map (fun metric => weights metric
                             * (player_stats metric / league_avg metric))
              metrics) in
  creation_score * CALIBRATION_CONSTANT.

(** Modelled from the spec: the assist variant turns its lambda into a
    probability the same way. *)
Definition assist_probability (player_stats : Metric -> R)
    (position_profile : PositionProfile) : R :=
  event_probability (calculate_assist_lambda player_stats position_profile).

End Assist.

End Pricing.

(** ** Login (frontend/src/lib/auth.ts) *)

Module Auth.

Local Open Scope string_scope.

(** [process.env]: a variable is unset or holds a string. *)
Definition Env : Type := string -> option string.

(** [a || b] where [a] is a string or undefined: [b] when [a] is
    undefined or the empty string. *)
Definition js_or (a : option string) (b : string) : string :=
  match a with
  | Some s => if String.eqb s "" then b else s
  | None => b
  end.

(** The posted credentials; a field can be missing. *)
Record Credentials : Type := {
  username : option string;
  password : option string
}.

Record User : Type := {
  id : string;
  name : string;
  email : string;
  role : string
}.

(** [credentials?.field] *)
Definition opt_chain (credentials : option Credentials)
    (field : Credentials -> option string) : option string :=
  match credentials with
  | None => None
  | Some c => field c
  end.

(** [a === b] where [b] is a string. *)
Definition strict_eq (a : option string) (b : string) : bool :=
  match a with
  | Some s => String.eqb s b
  | None => false
  end.

Definition admin_user : User :=
  {| id := "1"; name := "Admin"; email := "admin@ev0.local";
     role := "admin" |}.

Definition validUsername (env : Env) : string :=
  js_or (env "ADMIN_USERNAME") "admin".

Definition validPassword (env : Env) : string :=
  js_or (env "ADMIN_PASSWORD") "admin".

Definition authorize (env : Env) (credentials : option Credentials)
  : option User :=
  if strict_eq (opt_chain credentials username) (validUsername env)
     && strict_eq (opt_chain credentials password) (validPassword env)
  then Some admin_user
  else None.

(** The expected value as the specification words it: the environment
    value, and ['admin'] when the variable is unset. *)
Definition env_value_or_admin (v : option string) : string :=
  match v with
  | Some s => s
  | None => "admin"
  end.

(** The credential check as the specification words it. *)
Definition authorize_as_specified (env : Env)
    (credentials : option Credentials) : option User :=
  if strict_eq (opt_chain credentials username)
               (env_value_or_admin (env "ADMIN_USERNAME"))
     && strict_eq (opt_chain credentials password)
                  (env_value_or_admin (env "ADMIN_PASSWORD"))
  then Some admin_user
  else None.

Definition no_env : Env := fun _ => None.

(** [ADMIN_USERNAME] set to the empty string, [ADMIN_PASSWORD] unset. *)
Definition env_empty_username : Env :=
  fun k => if String.eqb k "ADMIN_USERNAME" then Some "" else None.

End Auth.

(** ** Market margin (data dictionary, Métriques de Marché) *)

Module Market.

(** [Margin (Vig)]: [(Sum(1/Odds) - 1)] over the whole market. *)
Definition margin (market : list Q) : Q :=
  Qsum (OddsNormalization.implied_probabilities market) - 1.

End Market.

(** ** Session callbacks of the login (frontend/src/lib/auth.ts) *)

Module AuthSession.

(** The JWT as the callbacks use it: the claims NextAuth puts there and
    the [role] the [jwt] callback adds. *)
Record Token : Type := {
  sub : option string;
  token_role : option string
}.

Record SessionUser : Type := {
  su_name : option string;
  su_email : option string;
  su_role : option string
}.

Record Session : Type := {
  user : option SessionUser;
  expires : string
}.

(** [async jwt({ token, user })]: [user] is only passed at sign-in. *)
Definition jwt (token : Token) (user : option Auth.User) : Token :=
  match user with
  | Some u => {| sub := sub token; token_role := Some (Auth.role u) |}
  | None => token
  end.

(** [async session({ session, token })] *)
Definition session (s : Session) (token : Token) : Session :=
  match user s with
  | Some su =>
      {| user := Some {| su_name := su_name su; su_email := su_email su;
                         su_role := token_role token |};
         expires := expires s |}
  | None => s
  end.

(** [maxAge: 24 * 60 * 60] *)
Definition maxAge : Z := (24 * 60 * 60)%Z.

End AuthSession.

(** ** Sidebar (frontend/src/components/Sidebar.tsx) *)

Module Sidebar.

Local Open Scope string_scope.

Record NavItem : Type := {
  name : string;
  href : string
}.

Definition navigation : list NavItem :=
  [ {| name := "Dashboard"; href := "/dashboard" |};
    {| name := "Recommendations"; href := "/dashboard/recommendations" |};
    {| name := "Backtest"; href := "/dashboard/backtest" |};
    {| name := "History"; href := "/dashboard/history" |};
    {| name := "Data Health"; href := "/dashboard/health" |};
    {| name := "Settings"; href := "/dashboard/settings" |} ].

(** [const isActive = pathname === item.href] *)
Definition isActive (pathname : string) (item : NavItem) : bool :=
  String.eqb pathname (href item).

(** The items rendered with the active style. *)
Definition active_items (pathname : string) : list NavItem :=
  filter (isActive pathname) navigation.

End Sidebar.

(** ** Recommendation card and recommendations page
       (frontend/src/components/RecommendationCard.tsx,
        frontend/src/app/dashboard/recommendations/page.tsx) *)

Module Recommendations.

Local Open Scope string_scope.

Record Recommendation : Type := {
  id : string;
  player : string;
  team : string;
  opponent : string;
  market : string;
  fairOdds : Q;
  bestOdds : Q;
  bookmaker : string;
  edge : Q;
  confidence : Q;
  kickoff : string
}.

(** [type MarketFilter = 'all' | 'goalscorer' | 'assist'] *)
Inductive MarketFilter : Type := market_all | market_goalscorer | market_assist.

Definition market_filter_value (m : MarketFilter) : string :=
  match m with
  | market_all => "all"
  | market_goalscorer => "goalscorer"
  | market_assist => "assist"
  end.

(** [type EdgeFilter = 'all' | '5+' | '10+' | '15+'] *)
Inductive EdgeFilter : Type := edge_all | edge_5 | edge_10 | edge_15.

Definition edge_filter_eqb (a b : EdgeFilter) : bool :=
  match a, b with
  | edge_all, edge_all | edge_5, edge_5
  | edge_10, edge_10 | edge_15, edge_15 => true
  | _, _ => false
  end.

(** The callback of [(data || []).filter(rec => ...)]. *)
Definition keep_rec (marketFilter : MarketFilter) (edgeFilter : EdgeFilter)
    (rec : Recommendation) : bool :=
  if negb (String.eqb (market_filter_value marketFilter) "all")
     && negb (String.eqb (market rec) (market_filter_value marketFilter))
  then false
  else if edge_filter_eqb edgeFilter edge_5 && Qlt_bool (edge rec) 0.05
  then false
  else if edge_filter_eqb edgeFilter edge_10 && Qlt_bool (edge rec) 0.10
  then false
  else if edge_filter_eqb edgeFilter edge_15 && Qlt_bool (edge rec) 0.15
  then false
  else true.

(** [filteredRecs]; [data] is undefined until the query has answered. *)
Definition filteredRecs (data : option (list Recommendation))
    (marketFilter : MarketFilter) (edgeFilter : EdgeFilter)
  : list Recommendation :=
  filter (keep_rec marketFilter edgeFilter)
         (match data with Some l => l | None => [] end).

(** The class of the market badge of [RecommendationCard]:
    [rec.market === 'Buteur' ? orange : blue]. *)
Definition market_badge_class (rec : Recommendation) : string :=
  if String.eqb (market rec) "Buteur"
  then "bg-orange-500/20 text-orange-400"
  else "bg-blue-500/20 text-blue-400".

(** [useState<'pending' | 'approved' | 'rejected'>('pending')] *)
Inductive CardStatus : Type := pending | approved | rejected.

Inductive Button : Type := Approuver | Rejeter | Annuler.

(** The buttons the card renders: the two actions while
    [status === 'pending'], the cancel link while [status !== 'pending']. *)
Definition buttons (status : CardStatus) : list Button :=
  match status with
  | pending => [Approuver; Rejeter]
  | _ => [Annuler]
  end.

(** The [onClick] handlers. *)
Definition onClick (b : Button) : CardStatus :=
  match b with
  | Approuver => approved
  | Rejeter => rejected
  | Annuler => pending
  end.

(** The card after a series of clicks, each on a button rendered at that
    moment; a click on a button that is not rendered cannot happen and
    stops the series. *)
Fixpoint click_all (status : CardStatus) (clicks : list Button)
  : option CardStatus :=
  match clicks with
  | [] => Some status
  | b :: rest =>
      if existsb (fun b' => match b, b' with
                            | Approuver, Approuver | Rejeter, Rejeter
                            | Annuler, Annuler => true
                            | _, _ => false
                            end) (buttons status)
      then click_all (onClick b) rest
      else None
  end.

End Recommendations.

(** ** History page (frontend/src/app/dashboard/history/page.tsx) *)

Module History.

(** [type BetStatus = 'won' | 'lost' | 'pending' | 'void'] *)
Inductive BetStatus : Type := won | lost | pending | void.

Definition status_eqb (a b : BetStatus) : bool :=
  match a, b with
  | won, won | lost, lost | pending, pending | void, void => true
  | _, _ => false
  end.

Inductive Market : Type := goalscorer | assist.

Record HistoricalBet : Type := {
  id : string;
  date : string;
  fixture : string;
  player : string;
  market : Market;
  odds : Q;
  stake : Q;
  edge : Q;
  status : BetStatus;
  pnl : Q
}.

(** [useState<BetStatus | 'all'>('all')] *)
Inductive StatusFilter : Type := all | only (s : BetStatus).

(** [useState<'date' | 'pnl' | 'edge'>('date')] *)
Inductive SortField : Type := by_date | by_pnl | by_edge.

Definition field_eqb (a b : SortField) : bool :=
  match a, b with
  | by_date, by_date | by_pnl, by_pnl | by_edge, by_edge => true
  | _, _ => false
  end.

Inductive SortDir : Type := asc | desc.

(** A JavaScript number that can be NaN: [None] is NaN. *)
Definition JsNumber : Type := option Q.

(** [SortCompare] of [Array.prototype.sort]: a comparator value that is
    NaN counts as +0. *)
Definition sort_compare (v : JsNumber) : Q :=
  match v with
  | Some q => q
  | None => 0
  end.

(** [Array.prototype.sort(compareFn)]: [a] goes before [b] when
    [compareFn(a, b) <= 0] and the two met in that order; the sort is
    stable (ECMAScript 2019), so for a comparator that is a consistent
    order the result is the one of the stable insertion sort.  Where the
    comparator is not consistent (it answers NaN for some pairs only)
    the order of the rows is left to the engine: nothing is stated
    about it below. *)
Fixpoint insert_by {A : Type} (compareFn : A -> A -> JsNumber) (x : A)
    (l : list A) : list A :=
  match l with
  | [] => [x]
  | y :: r =>
      if Qle_bool (sort_compare (compareFn x y)) 0
      then x :: y :: r
      else y :: insert_by compareFn x r
  end.

Definition sort_by {A : Type} (compareFn : A -> A -> JsNumber) (l : list A)
  : list A :=
  fold_right (insert_by compareFn) [] l.

Section Page.

(** [new Date(s).getTime()], in milliseconds; [None] is the NaN of a
    date string that does not parse. *)
Variable getTime : string -> option Z.

(** [const mult = sortDir === 'asc' ? 1 : -1] *)
Definition mult (sortDir : SortDir) : Q :=
  match sortDir with
  | asc => 1
  | desc => -1
  end.

(** The comparator handed to [sort]; a difference with NaN is NaN. *)
Definition compareFn (sortField : SortField) (sortDir : SortDir)
    (a b : HistoricalBet) : JsNumber :=
  if field_eqb sortField by_date
  then match getTime (date b), getTime (date a) with
       | Some tb, Some ta => Some (mult sortDir * inject_Z (tb - ta))
       | _, _ => None
       end
  else if field_eqb sortField by_pnl
  then Some (mult sortDir * (pnl a - pnl b))
  else Some (mult sortDir * (edge a - edge b)).

(** [bet => statusFilter === 'all' || bet.status === statusFilter] *)
Definition status_matches (statusFilter : StatusFilter)
    (bet : HistoricalBet) : bool :=
  match statusFilter with
  | all => true
  | only s => status_eqb (status bet) s
  end.

Definition filteredBets (bets : list HistoricalBet)
    (statusFilter : StatusFilter) (sortField : SortField)
    (sortDir : SortDir) : list HistoricalBet :=
  sort_by (compareFn sortField sortDir)
          (filter (status_matches statusFilter) bets).

End Page.

(** Rows 3 and 5 of [mockBets], and the times of their two dates. *)
Definition sample_bets : list HistoricalBet :=
  [ {| id := "3"; date := "2024-01-27"; fixture := "Liverpool vs Arsenal";
       player := "Salah"; market := goalscorer; odds := 2.40; stake := 15;
       edge := 0.18; status := won; pnl := 21 |};
    {| id := "5"; date := "2024-02-01"; fixture := "Monaco vs Marseille";
       player := "Ben Yedder"; market := goalscorer; odds := 2.60;
       stake := 10; edge := 0.11; status := pending; pnl := 0 |} ].

Definition sample_getTime (s : string) : option Z :=
  if String.eqb s "2024-01-27" then Some 1706313600000%Z
  else if String.eqb s "2024-02-01" then Some 1706745600000%Z
  else None.

Record Stats : Type := {
  total : nat;
  n_won : nat;
  n_lost : nat;
  n_pending : nat;
  totalPnl : Q
}.

Definition count_status (s : BetStatus) (bets : list HistoricalBet) : nat :=
  List.length (filter (fun b => status_eqb (status b) s) bets).

(** [const stats = { total, won, lost, pending, totalPnl }] *)
Definition stats (bets : list HistoricalBet) : Stats :=
  {| total := List.length bets;
     n_won := count_status won bets;
     n_lost := count_status lost bets;
     n_pending := count_status pending bets;
     totalPnl := fold_left (fun sum b => sum + pnl b) bets 0 |}.

(** [SortButton], its [onClick]: the active column flips its direction,
    another column becomes active in ['desc']. *)
Definition sort_click (field : SortField) (state : SortField * SortDir)
  : SortField * SortDir :=
  let (current, dir) := state in
  if field_eqb field current
  then (current, match dir with asc => desc | desc => asc end)
  else (field, desc).

End History.

(** * Proofs *)

Local Open Scope Q_scope.

(** ** Sums of rationals *)

Lemma Qsum_scale (c : Q) (l : list Q) :
  Qsum (map (fun x => x * c) l) == Qsum l * c.
Proof.
  induction l as [|x l IH]; simpl.
  - ring.
  - rewrite IH. ring.
Qed.

Lemma Qsum_pos (l : list Q) :
  l <> [] -> Forall (fun x => 0 < x) l -> 0 < Qsum l.
Proof.
  intros Hne Hall. induction Hall as [|x l Hx Hall IH].
  - congruence.
  - simpl. destruct l as [|y l].
    + simpl. lra.
    + assert (0 < Qsum (y :: l)) by (apply IH; discriminate). lra.
Qed.

Lemma approxQ_of_Qeq (tol x y : Q) : 0 <= tol -> x == y -> approxQ tol x y.
Proof.
  intros Htol Hxy. unfold approxQ.
  assert (E : x - y == 0) by (rewrite Hxy; ring).
  rewrite E. exact Htol.
Qed.

(** ** Edge *)

Lemma edge_forms_equal (p o : Q) :
  0 < p -> Edge.edge_pct p o == Edge.edge_odds_ratio o (Edge.EV0 p).
Proof.
  intros Hp. unfold Edge.edge_pct, Edge.edge_odds_ratio, Edge.EV0.
  field. lra.
Qed.

(** The probability form of docs/04 is the same number once the clean
    market probability is written [1 / o]. *)
Lemma edge_prob_form_equal (p o : Q) :
  0 < o -> Edge.edge_prob p (1 / o) == Edge.edge_pct p o.
Proof.
  intros Ho. unfold Edge.edge_prob, Edge.edge_pct. field. lra.
Qed.

(** C1: for every model probability [0 < p <= 1] and de-margined market
    odds [o > 0], with fair odds [1/p], the probability form
    [p * o - 1] and the odds-ratio form [o / (1/p) - 1] of the edge agree
    within 1e-9. *)
Theorem edge_two_forms_agree (p o : Q) :
  0 < p -> p <= 1 -> 0 < o ->
  approxQ (1 # 1000000000)
          (Edge.edge_pct p o) (Edge.edge_odds_ratio o (Edge.EV0 p)).
Proof.
  intros Hp _ _. apply approxQ_of_Qeq.
  - discriminate.
  - now apply edge_forms_equal.
Qed.

Lemma edge_two_forms_agree_witness :
  approxQ (1 # 1000000000)
          (Edge.edge_pct 0.485 2.30)
          (Edge.edge_odds_ratio 2.30 (Edge.EV0 0.485)).
Proof.
  apply (edge_two_forms_agree 0.485 2.30); lra.
Defined.

(** ** Odds normalisation *)

Import OddsNormalization.

Lemma implied_probabilities_pos (market : list Q) :
  Forall (fun o => 0 < o) market ->
  Forall (fun p => 0 < p) (implied_probabilities market).
Proof.
  unfold implied_probabilities. induction 1 as [|o l Ho _ IH]; simpl.
  - constructor.
  - constructor; [|exact IH].
    unfold implied_probability.
    setoid_replace (1 / o) with (/ o) by (unfold Qdiv; ring).
    now apply Qinv_lt_0_compat.
Qed.

Lemma remove_overround_sum (ps : list Q) :
  ~ Qsum ps == 0 -> Qsum (remove_overround ps) == 1.
Proof.
  intros Hs. unfold remove_overround, Qdiv.
  rewrite (Qsum_scale (/ Qsum ps) ps). now field.
Qed.

Lemma odds_clean_round_trip (pc : list Q) :
  Forall2 Qeq (map implied_probability (map odds_clean pc)) pc.
Proof.
  induction pc as [|p l IH]; simpl; constructor; [|exact IH].
  unfold implied_probability, odds_clean, Qdiv.
  rewrite !Qmult_1_l. apply Qinv_involutive.
Qed.

(** C3: for every market of at least two positive decimal odds, the
    proportionally cleaned probabilities [p_i / sum p] of the implied
    probabilities [1 / odds_i] sum to 1 within 1e-6, and the cleaned odds
    [1 / p_clean_i] convert back to the same [p_clean_i]. *)
Theorem clean_probabilities_sum_and_round_trip (market : list Q) :
  (2 <= List.length market)%nat ->
  Forall (fun o => 0 < o) market ->
  approxQ (1 # 1000000) (Qsum (clean_probabilities market)) 1
  /\ Forall2 Qeq (map implied_probability (clean_odds market))
                 (clean_probabilities market).
Proof.
  intros Hlen Hpos. split.
  - apply approxQ_of_Qeq; [discriminate|].
    unfold clean_probabilities. apply remove_overround_sum.
    assert (0 < Qsum (implied_probabilities market)); [|lra].
    apply Qsum_pos.
    + unfold implied_probabilities. destruct market; simpl in *; [lia|discriminate].
    + now apply implied_probabilities_pos.
  - unfold clean_odds. apply odds_clean_round_trip.
Qed.

Lemma clean_probabilities_sum_and_round_trip_witness :
  approxQ (1 # 1000000) (Qsum (clean_probabilities example_market)) 1
  /\ Forall2 Qeq (map implied_probability (clean_odds example_market))
                 (clean_probabilities example_market).
Proof.
  apply (clean_probabilities_sum_and_round_trip example_market).
  - simpl. lia.
  - unfold example_market. repeat constructor.
Defined.

(** In the market of the worked example the raw implied sum is 1.023
    and the cleaned probabilities of the quoted selections are the
    printed ones to within 0.001, but the cleaned odds of Player A are
    2.2506, about 2.25: they are 0.1 away from the printed 2.15. *)
Lemma example_market_not_as_printed :
  Qsum (implied_probabilities example_market) == 1.023
  /\ approxQ 0.001 (nth 0 (clean_probabilities example_market) 0) 0.445
  /\ approxQ 0.001 (nth 1 (clean_probabilities example_market) 0) 0.280
  /\ approxQ 0.001 (nth 2 (clean_probabilities example_market) 0) 0.109
  /\ ~ approxQ 0.1 (nth 0 (clean_odds example_market) 0) 2.15.
Proof.
  split; [reflexivity|]. repeat split; vm_compute; congruence.
Qed.

Lemma approxQ_bounds (tol x y : Q) :
  approxQ tol x y <-> y - tol <= x /\ x <= y + tol.
Proof.
  unfold approxQ. rewrite Qabs_Qle_condition. split; intros [H1 H2]; lra.
Qed.

Lemma approxQ_quotient (tol x s y : Q) :
  0 < s -> (y - tol) * s <= x -> x <= (y + tol) * s ->
  approxQ tol (x / s) y.
Proof.
  intros Hs Hlo Hhi. apply approxQ_bounds. split.
  - now apply Qle_shift_div_l.
  - now apply Qle_shift_div_r.
Qed.

(** C9 (amended): for every market of positive odds that holds the
    selections 2.20, 3.50 and 9.00 and whose raw implied probabilities
    sum to about 1.023, proportional margin removal gives these
    selections cleaned probabilities of about 0.445, 0.280 and 0.109
    (to within 0.001), the cleaned probabilities of the market sum to 1,
    and the cleaned odds of Player A are about 2.25. *)
Theorem example_market_cleaned (rest : list Q) :
  Forall (fun o => 0 < o) rest ->
  approx3 (Qsum (implied_probabilities (example_selections ++ rest))) 1.023 ->
  approxQ 0.001
    (nth 0 (clean_probabilities (example_selections ++ rest)) 0) 0.445
  /\ approxQ 0.001
       (nth 1 (clean_probabilities (example_selections ++ rest)) 0) 0.280
  /\ approxQ 0.001
       (nth 2 (clean_probabilities (example_selections ++ rest)) 0) 0.109
  /\ Qsum (clean_probabilities (example_selections ++ rest)) == 1
  /\ approx2 (nth 0 (clean_odds (example_selections ++ rest)) 0) 2.25.
Proof.
  intros _ HS. apply approxQ_bounds in HS as [Hlo Hhi].
  unfold clean_odds, clean_probabilities, remove_overround.
  set (S := Qsum (implied_probabilities (example_selections ++ rest))) in *.
  assert (HS : 0 < S) by lra.
  cbn [example_selections app implied_probabilities map nth].
  unfold implied_probability.
  assert (E1 : 1 / 2.20 == 5 # 11) by reflexivity.
  assert (E2 : 1 / 3.50 == 2 # 7) by reflexivity.
  assert (E3 : 1 / 9.00 == 1 # 9) by reflexivity.
  split; [apply approxQ_quotient; rewrite ?E1; lra|].
  split; [apply approxQ_quotient; rewrite ?E2; lra|].
  split; [apply approxQ_quotient; rewrite ?E3; lra|]. split.
  - change (Qsum (remove_overround
                    (implied_probabilities (example_selections ++ rest)))
            == 1).
    apply remove_overround_sum. fold S. lra.
  - assert (E : odds_clean (1 / 2.20 / S) == 2.20 * S)
      by (unfold odds_clean; field; lra).
    apply approxQ_bounds. rewrite E. split; lra.
Qed.

Lemma example_market_cleaned_witness :
  approx2 (nth 0 (clean_odds example_market) 0) 2.25.
Proof.
  apply (example_market_cleaned [693000 # 118939]).
  - repeat constructor.
  - vm_compute. discriminate.
Defined.

(** ** Override allocator *)

Import Override.

Lemma rescale_sum (total : Q) (lambdas : list Q) :
  ~ Qsum lambdas == 0 -> Qsum (rescale total lambdas) == total.
Proof.
  intros Hs. unfold rescale.
  rewrite (Qsum_scale (total / Qsum lambdas) lambdas). now field.
Qed.

Lemma rescale_nth (total : Q) (lambdas : list Q) (i : nat) (l' : Q) :
  nth_error (rescale total lambdas) i = Some l' ->
  exists l, nth_error lambdas i = Some l
            /\ l' = l * (total / Qsum lambdas).
Proof.
  unfold rescale. rewrite nth_error_map.
  destruct (nth_error lambdas i) as [l|]; simpl; [|discriminate].
  intros [= <-]. now exists l.
Qed.

(** C6: with a team-level override active each lambda is rescaled to
    [lambda_i * (override_total / sum lambda)]; for every non-empty list
    of lambdas with positive sum the rescaled lambdas sum exactly to
    [override_total] and every pair keeps its ratio (stated both
    cross-multiplied and, where the rescaled denominator is not zero, as
    the quotient); override 2.5 over 0.40, 0.30, 0.20 gives about 1.111,
    0.833, 0.556, summing to 2.5. *)
Theorem override_rescale_sum_and_shares (override_total : Q)
    (lambdas : list Q) :
  lambdas <> [] -> 0 < Qsum lambdas ->
  Qsum (allocate (Some override_total) lambdas) == override_total
  /\ (forall i j li lj li' lj',
        nth_error lambdas i = Some li ->
        nth_error lambdas j = Some lj ->
        nth_error (allocate (Some override_total) lambdas) i = Some li' ->
        nth_error (allocate (Some override_total) lambdas) j = Some lj' ->
        li' == li * (override_total / Qsum lambdas)
        /\ li' * lj == li * lj'
        /\ (~ lj' == 0 -> li' / lj' == li / lj))
  /\ Forall2 approx3 (allocate (Some 2.5) example_lambdas)
                     [1.111; 0.833; 0.556]
  /\ Qsum (allocate (Some 2.5) example_lambdas) == 2.5.
Proof.
  intros _ Hs. simpl allocate. split; [|split; [|split]].
  - apply rescale_sum. lra.
  - intros i j li lj li' lj' Hi Hj Hi' Hj'.
    apply rescale_nth in Hi' as (a & Ha & ->).
    apply rescale_nth in Hj' as (b & Hb & ->).
    rewrite Hi in Ha. rewrite Hj in Hb.
    injection Ha as <-. injection Hb as <-.
    set (c := override_total / Qsum lambdas).
    split; [reflexivity|]. split; [ring|].
    intros Hnz.
    assert (Hlj : ~ lj == 0) by (intros E; apply Hnz; rewrite E; ring).
    assert (Hc : ~ c == 0) by (intros E; apply Hnz; rewrite E; ring).
    field. split; assumption.
  - repeat constructor; vm_compute; congruence.
  - vm_compute. reflexivity.
Qed.

Lemma override_rescale_sum_and_shares_witness :
  Qsum (allocate (Some 2.5) example_lambdas) == 2.5.
Proof.
  refine (proj1 (override_rescale_sum_and_shares 2.5 example_lambdas _ _)).
  - discriminate.
  - reflexivity.
Defined.

(** ** Selection strategy *)

Import Strategy.

Lemma Qlt_bool_iff (a b : Q) : Qlt_bool a b = true <-> a < b.
Proof.
  unfold Qlt_bool. rewrite negb_true_iff.
  destruct (Qle_bool b a) eqn:E.
  - apply Qle_bool_iff in E. split; [discriminate|]. intros H. lra.
  - split; [|reflexivity]. intros _.
    destruct (Qlt_le_dec a b) as [H|H]; [exact H|].
    apply Qle_bool_iff in H. congruence.
Qed.

Lemma Qlt_bool_false_iff (a b : Q) : Qlt_bool a b = false <-> b <= a.
Proof.
  split.
  - intros E. destruct (Qlt_le_dec a b) as [H|H]; [|exact H].
    apply Qlt_bool_iff in H. congruence.
  - intros H. destruct (Qlt_bool a b) eqn:E; [|reflexivity].
    apply Qlt_bool_iff in E. lra.
Qed.

Lemma select_one_some (phase : Phase) (pred : Prediction) (b : Bet) :
  select_one phase pred = Some b ->
  b = create_bet pred (FLAT_UNIT * stake_factor phase)
  /\ min_edge phase <= edge pred
  /\ (phase = EARLY -> 70 <= projected_mins pred)
  /\ (phase = LINEUP -> is_confirmed_starter pred = true).
Proof.
  unfold select_one.
  destruct phase; simpl phase_eqb; cbn [andb].
  - destruct (Qlt_bool (projected_mins pred) (min_mins EARLY)) eqn:Em;
      [discriminate|].
    destruct (Qlt_bool (edge pred) (min_edge EARLY)) eqn:Ee; [discriminate|].
    intros [= <-]. apply Qlt_bool_false_iff in Em, Ee.
    split; [reflexivity|]. split; [exact Ee|].
    split; [intros _; exact Em | discriminate].
  - destruct (is_confirmed_starter pred) eqn:Es; cbn [negb]; [|discriminate].
    destruct (Qlt_bool (edge pred) (min_edge LINEUP)) eqn:Ee; [discriminate|].
    intros [= <-]. apply Qlt_bool_false_iff in Ee.
    split; [reflexivity|]. split; [exact Ee|].
    split; [discriminate | reflexivity].
Qed.

(** What [select_bets] does enforce: every candidate it keeps has an
    edge of at least the phase minimum, at least 70 projected minutes in
    EARLY and a confirmed start in LINEUP. *)
Lemma candidate_bets_filtered (predictions : list Prediction)
    (odds : OddsData) (phase : Phase) (b : Bet) :
  In b (candidate_bets predictions odds phase) ->
  In (bet_pred b) predictions
  /\ stake b = FLAT_UNIT * stake_factor phase
  /\ min_edge phase <= edge (bet_pred b)
  /\ (phase = EARLY -> 70 <= projected_mins (bet_pred b))
  /\ (phase = LINEUP -> is_confirmed_starter (bet_pred b) = true).
Proof.
  induction predictions as [|pred rest IH]; simpl; [tauto|].
  destruct (select_one phase pred) as [b0|] eqn:E.
  - intros [<-|Hin].
    + apply select_one_some in E as (-> & He & Hm & Hs). simpl. tauto.
    + specialize (IH Hin). tauto.
  - intros Hin. specialize (IH Hin). tauto.
Qed.

Lemma apply_exposure_caps_bets (ledger bets : list Bet) :
  map dec_bet (apply_exposure_caps ledger bets) = bets
  /\ Forall (fun d => dec_stake d = stake (dec_bet d))
            (apply_exposure_caps ledger bets).
Proof.
  revert ledger. induction bets as [|b rest IH]; intros ledger; simpl.
  - split; constructor.
  - destruct (exceeds_cap ledger b); simpl;
      (split; [f_equal; apply IH | constructor; [reflexivity | apply IH]]).
Qed.

(** The minutes example: 65 projected minutes in EARLY are filtered
    whatever the edge; the same player confirmed in LINEUP passes. *)
Lemma minutes_filter_example (pred : Prediction) :
  projected_mins pred == 65 ->
  select_one EARLY pred = None
  /\ (is_confirmed_starter pred = true -> 0.03 <= edge pred ->
      select_one LINEUP pred = Some (create_bet pred (FLAT_UNIT * 1.0))).
Proof.
  intros Hm. split.
  - unfold select_one. simpl phase_eqb. cbn [andb].
    replace (Qlt_bool (projected_mins pred) (min_mins EARLY)) with true;
      [reflexivity|].
    symmetry. apply Qlt_bool_iff. simpl. rewrite Hm. reflexivity.
  - intros Hs He. unfold select_one. simpl phase_eqb. cbn [andb].
    rewrite Hs. cbn [negb].
    replace (Qlt_bool (edge pred) (min_edge LINEUP)) with false;
      [reflexivity|].
    symmetry. apply Qlt_bool_false_iff. exact He.
Qed.

(** C4 (the odds filter is missing): a candidate with 90 projected
    minutes, a confirmed start, edge 0.5 and a bookmaker odd of 20.00,
    above the documented maxima 15.00 (EARLY) and 12.00 (LINEUP), is not
    filtered out in either phase: [select_bets], which never reads its
    [odds] argument, recommends it at stake 0.75 in EARLY and 1.0 in
    LINEUP. *)
Theorem select_bets_ignores_max_odds :
  odds_of long_shot_odds (player_id long_shot) = Some 20.00
  /\ max_odds EARLY < 20.00
  /\ max_odds LINEUP < 20.00
  /\ (exists d,
        select_bets [] [long_shot] long_shot_odds EARLY = [d]
        /\ bet_pred (dec_bet d) = long_shot
        /\ status d = RECOMMENDED
        /\ dec_stake d == 0.75)
  /\ (exists d,
        select_bets [] [long_shot] long_shot_odds LINEUP = [d]
        /\ bet_pred (dec_bet d) = long_shot
        /\ status d = RECOMMENDED
        /\ dec_stake d == 1.0).
Proof.
  split; [reflexivity|]. split; [reflexivity|]. split; [reflexivity|].
  split; eexists; (split; [vm_compute; reflexivity|]);
    (split; [reflexivity|]); split; reflexivity.
Qed.

(** [select_bets] gives the same answer whatever odds it is handed. *)
Lemma select_bets_odds_irrelevant (ledger : list Bet)
    (predictions : list Prediction) (odds odds' : OddsData) (phase : Phase) :
  select_bets ledger predictions odds phase
  = select_bets ledger predictions odds' phase.
Proof.
  unfold select_bets. f_equal.
  induction predictions as [|pred rest IH]; simpl; [reflexivity|].
  now rewrite IH.
Qed.

(** *** Exposure control *)

Lemma exceeds_cap_true_iff (ledger : list Bet) (b : Bet) :
  exceeds_cap ledger b = true <->
  MAX_PER_MATCH < exposure same_match ledger b + stake b
  \/ MAX_PER_PLAYER < exposure same_player ledger b + stake b
  \/ MAX_PER_DAY < exposure same_day ledger b + stake b.
Proof.
  unfold exceeds_cap. rewrite !orb_true_iff, !Qlt_bool_iff. tauto.
Qed.

Lemma exceeds_cap_false_iff (ledger : list Bet) (b : Bet) :
  exceeds_cap ledger b = false <->
  exposure same_match ledger b + stake b <= MAX_PER_MATCH
  /\ exposure same_player ledger b + stake b <= MAX_PER_PLAYER
  /\ exposure same_day ledger b + stake b <= MAX_PER_DAY.
Proof.
  unfold exceeds_cap. rewrite !orb_false_iff, !Qlt_bool_false_iff. tauto.
Qed.

Lemma apply_exposure_caps_app (ledger pre post : list Bet) :
  apply_exposure_caps ledger (pre ++ post)
  = apply_exposure_caps ledger pre
    ++ apply_exposure_caps (ledger_after ledger pre) post.
Proof.
  revert ledger. induction pre as [|a pre IH]; intros ledger; simpl.
  - reflexivity.
  - destruct (exceeds_cap ledger a); simpl; now rewrite IH.
Qed.

(** C7: every candidate gets one decision, in order, that carries the
    candidate's own stake; a candidate whose stake would take the match,
    the player (bets of both phases are in the ledger) or the day above
    its cap is REJECTED with reason EXPOSURE_CAP; a candidate within all
    caps is RECOMMENDED with no rejection reason. *)
Theorem exposure_caps_reject_never_resize (ledger pre post : list Bet)
    (b : Bet) :
  let before := ledger_after ledger pre in
  exists d rest,
    apply_exposure_caps ledger (pre ++ b :: post)
    = apply_exposure_caps ledger pre ++ d :: rest
    /\ dec_bet d = b
    /\ dec_stake d = stake b
    /\ (MAX_PER_MATCH < exposure same_match before b + stake b
        \/ MAX_PER_PLAYER < exposure same_player before b + stake b
        \/ MAX_PER_DAY < exposure same_day before b + stake b ->
        status d = REJECTED /\ rejection_reason d = Some EXPOSURE_CAP)
    /\ (exposure same_match before b + stake b <= MAX_PER_MATCH
        /\ exposure same_player before b + stake b <= MAX_PER_PLAYER
        /\ exposure same_day before b + stake b <= MAX_PER_DAY ->
        status d = RECOMMENDED /\ rejection_reason d = None).
Proof.
  intros before. rewrite apply_exposure_caps_app. simpl. fold before.
  destruct (exceeds_cap before b) eqn:E.
  - eexists. eexists. split; [reflexivity|]. simpl.
    split; [reflexivity|]. split; [reflexivity|]. split; [tauto|].
    intros H. apply exceeds_cap_false_iff in H. congruence.
  - eexists. eexists. split; [reflexivity|]. simpl.
    split; [reflexivity|]. split; [reflexivity|]. split; [|tauto].
    intros H. apply exceeds_cap_true_iff in H. congruence.
Qed.

(** A player backed at 0.75 in EARLY and proposed again at 1.0 in LINEUP
    would stand at 1.75 units, above the 1.5 cap: the second bet is
    rejected at its full stake. *)
Lemma exposure_caps_reject_never_resize_witness :
  exists d rest,
    apply_exposure_caps []
      ([create_bet long_shot 0.75] ++ create_bet long_shot 1.0 :: [])
    = apply_exposure_caps [] [create_bet long_shot 0.75] ++ d :: rest
    /\ dec_stake d = 1.0
    /\ status d = REJECTED /\ rejection_reason d = Some EXPOSURE_CAP.
Proof.
  destruct (exposure_caps_reject_never_resize []
              [create_bet long_shot 0.75] [] (create_bet long_shot 1.0))
    as (d & rest & Heq & _ & Hst & Hrej & _).
  exists d, rest. split; [exact Heq|]. split; [exact Hst|].
  apply Hrej. right. left. vm_compute. reflexivity.
Defined.

(** *** The caps as an invariant of the ledger *)

Lemma exposure_cons (same : Bet -> Bet -> bool) (b : Bet)
    (ledger : list Bet) (k : Bet) :
  exposure same (b :: ledger) k
  = if same b k then stake b + exposure same ledger k
    else exposure same ledger k.
Proof. unfold exposure. simpl. now destruct (same b k). Qed.

Lemma exposure_same_key (f : Bet -> string) (ledger : list Bet)
    (b k : Bet) :
  String.eqb (f b) (f k) = true ->
  exposure (fun x y => String.eqb (f x) (f y)) ledger k
  = exposure (fun x y => String.eqb (f x) (f y)) ledger b.
Proof.
  intros E. apply String.eqb_eq in E. unfold exposure. now rewrite E.
Qed.

Lemma within_caps_accept (ledger : list Bet) (b : Bet) :
  within_caps ledger -> exceeds_cap ledger b = false ->
  within_caps (b :: ledger).
Proof.
  intros Hinv Hb k. apply exceeds_cap_false_iff in Hb as (Hm & Hp & Hd).
  destruct (Hinv k) as (Km & Kp & Kd).
  rewrite !exposure_cons. repeat split.
  - destruct (same_match b k) eqn:E; [|exact Km].
    unfold same_match in *.
    rewrite (exposure_same_key (fun x => fixture_id (bet_pred x)) _ _ _ E).
    lra.
  - destruct (same_player b k) eqn:E; [|exact Kp].
    unfold same_player in *.
    rewrite (exposure_same_key (fun x => player_id (bet_pred x)) _ _ _ E).
    lra.
  - destruct (same_day b k) eqn:E; [|exact Kd].
    unfold same_day in *.
    rewrite (exposure_same_key (fun x => match_day (bet_pred x)) _ _ _ E).
    lra.
Qed.

(** Exposure control keeps the ledger within the caps, whatever the
    candidates. *)
Lemma ledger_after_within_caps (bets ledger : list Bet) :
  within_caps ledger -> within_caps (ledger_after ledger bets).
Proof.
  revert ledger. induction bets as [|b rest IH]; intros ledger Hinv; simpl.
  - exact Hinv.
  - destruct (exceeds_cap ledger b) eqn:E.
    + now apply IH.
    + apply IH. now apply within_caps_accept.
Qed.

(** ** Backtest integrity *)

Import Backtest.

Local Open Scope Z_scope.

Lemma earliest_spec (ts : list Z) (m : Z) :
  earliest ts = Some m -> In m ts /\ forall t, In t ts -> m <= t.
Proof.
  revert m. induction ts as [|t rest IH]; simpl; [discriminate|].
  intros m. destruct (earliest rest) as [m'|] eqn:E.
  - intros [= <-]. destruct (IH m' eq_refl) as [Hin Hmin]. split.
    + destruct (Z.min_spec t m') as [[_ ->]|[_ ->]]; auto.
    + intros u [<-|Hu]; [lia|]. specialize (Hmin u Hu). lia.
  - intros [= <-]. destruct rest as [|u rest'].
    + split; [now left|]. intros u [<-|[]]. lia.
    + simpl in E. destruct (earliest rest'); discriminate.
Qed.

Lemma no_look_ahead_iff (dp : DecisionPoint) :
  no_look_ahead dp = true <->
  forall s, In s (inputs dp) -> as_of_utc s <= bet_timestamp dp.
Proof.
  unfold no_look_ahead. rewrite forallb_forall.
  split; intros H s Hs; specialize (H s Hs); lia.
Qed.

Lemma train_before_test_iff (f : Fold) :
  train_before_test f = true <->
  forall t0 s, earliest_test f = Some t0 -> In s (train f) ->
               as_of_utc s < t0.
Proof.
  unfold train_before_test. destruct (earliest_test f) as [t0|].
  - rewrite forallb_forall. split.
    + intros H t s [= <-] Hs. specialize (H s Hs). lia.
    + intros H s Hs. specialize (H t0 s eq_refl Hs). lia.
  - split; [discriminate|reflexivity].
Qed.

Lemma fold_ok_iff (f : Fold) :
  fold_ok f = true <->
  (forall t0 s, earliest_test f = Some t0 -> In s (train f) ->
                as_of_utc s < t0)
  /\ (forall dp s, In dp (test f) -> In s (inputs dp) ->
                   as_of_utc s <= bet_timestamp dp).
Proof.
  unfold fold_ok. rewrite andb_true_iff, train_before_test_iff,
    forallb_forall.
  split; intros [H1 H2]; (split; [exact H1|]).
  - intros dp s Hdp. now apply no_look_ahead_iff, H2.
  - intros dp Hdp. apply no_look_ahead_iff. intros s. now apply H2.
Qed.

Lemma run_backtest_ok_iff (id : Z) (folds : list Fold) (r : Report) :
  run_backtest id folds = inr r <->
  (forall f, In f folds -> fold_ok f = true)
  /\ r = {| run_id := id;
            total_bets := List.length (flat_map test folds) |}.
Proof.
  unfold run_backtest. destruct (forallb fold_ok folds) eqn:E.
  - rewrite forallb_forall in E. split.
    + intros [= <-]. now split.
    + intros [_ ->]. reflexivity.
  - split; [discriminate|]. intros [H _].
    rewrite <- forallb_forall in H. congruence.
Qed.

Lemma run_backtest_leak (id : Z) (folds : list Fold) (f : Fold) :
  In f folds -> fold_ok f = false ->
  run_backtest id folds = inl LeakageViolation.
Proof.
  intros Hf Hbad. unfold run_backtest.
  destruct (forallb fold_ok folds) eqn:E; [|reflexivity].
  rewrite forallb_forall in E. specialize (E f Hf). congruence.
Qed.

(** C2: a backtest run that reports has used, for every decision at time
    T, only snapshots with [as_of <= T], and in every walk-forward window
    all training timestamps are strictly below the earliest test
    timestamp; a run with any violation of either rule ends in
    [LeakageViolation] and carries no report; a completed report covers
    every test decision of every window. *)
Theorem backtest_no_look_ahead (id : Z) (folds : list Fold) :
  (forall r, run_backtest id folds = inr r ->
     (forall f dp s, In f folds -> In dp (test f) -> In s (inputs dp) ->
                     as_of_utc s <= bet_timestamp dp)
     /\ (forall f t0 s, In f folds -> earliest_test f = Some t0 ->
                        In s (train f) -> as_of_utc s < t0)
     /\ total_bets r = List.length (flat_map test folds))
  /\ ((exists f dp s, In f folds /\ In dp (test f) /\ In s (inputs dp)
                      /\ bet_timestamp dp < as_of_utc s) ->
      run_backtest id folds = inl LeakageViolation)
  /\ ((exists f t0 s, In f folds /\ earliest_test f = Some t0
                      /\ In s (train f) /\ t0 <= as_of_utc s) ->
      run_backtest id folds = inl LeakageViolation)
  /\ (run_backtest id folds = inl LeakageViolation
      \/ exists r, run_backtest id folds = inr r).
Proof.
  split; [|split; [|split]].
  - intros r Hr. apply run_backtest_ok_iff in Hr as [Hok ->].
    split; [|split; [|reflexivity]].
    + intros f dp s Hf. apply (proj1 (fold_ok_iff f) (Hok f Hf)).
    + intros f t0 s Hf. apply (proj1 (fold_ok_iff f) (Hok f Hf)).
  - intros (f & dp & s & Hf & Hdp & Hs & Hlt).
    apply (run_backtest_leak id folds f Hf).
    destruct (fold_ok f) eqn:E; [|reflexivity].
    apply fold_ok_iff in E as [_ E]. specialize (E dp s Hdp Hs). lia.
  - intros (f & t0 & s & Hf & Ht0 & Hs & Hle).
    apply (run_backtest_leak id folds f Hf).
    destruct (fold_ok f) eqn:E; [|reflexivity].
    apply fold_ok_iff in E as [E _]. specialize (E t0 s Ht0 Hs). lia.
  - unfold run_backtest. destruct (forallb fold_ok folds); eauto.
Qed.

(** A window whose only test decision, at time 100, read a snapshot
    dated 101. *)
Lemma backtest_no_look_ahead_witness :
  run_backtest 1
    [ {| train := [];
         test := [ {| bet_timestamp := 100;
                      inputs := [ {| snapshot_id := 7;
                                     as_of_utc := 101 |} ] |} ] |} ]
  = inl LeakageViolation.
Proof.
  apply (proj1 (proj2 (backtest_no_look_ahead 1 _))).
  eexists. eexists. eexists.
  split; [left; reflexivity|].
  split; [left; reflexivity|].
  split; [left; reflexivity|].
  simpl. lia.
Defined.

(** *** The documented protocol never leaks *)

Lemma snapshots_as_of_sound (db : list Snapshot) (t : Z) (s : Snapshot) :
  In s (snapshots_as_of db t) <-> In s db /\ as_of_utc s <= t.
Proof.
  unfold snapshots_as_of. rewrite filter_In. intuition lia.
Qed.

Lemma week_of_lt (season_start a t k : Z) :
  week_of season_start a <= k -> week_of season_start t = k + 1 -> a < t.
Proof.
  unfold week_of, WEEK. intros Ha Ht.
  destruct (Z_lt_le_dec a t) as [H|H]; [exact H|].
  assert ((t - season_start) / 604800 <= (a - season_start) / 604800)
    by (apply Z.div_le_mono; lia).
  lia.
Qed.

Lemma fold_at_ok (season_start : Z) (db : list Snapshot) (bets : list Z)
    (k : Z) :
  fold_ok (fold_at season_start db bets k) = true.
Proof.
  apply fold_ok_iff. split.
  - intros t0 s Ht0 Hs. unfold earliest_test in Ht0.
    apply earliest_spec in Ht0 as [Hin _].
    simpl in Hin, Hs. rewrite map_map in Hin. simpl in Hin.
    rewrite map_id in Hin.
    apply filter_In in Hin as [_ Hw]. apply filter_In in Hs as [_ Hs].
    apply (week_of_lt season_start _ _ k); lia.
  - intros dp s Hdp Hs. simpl in Hdp.
    apply in_map_iff in Hdp as (t & <- & _). simpl in *.
    now apply snapshots_as_of_sound in Hs.
Qed.

(** Windows cut by week number, with inputs read through
    [WHERE as_of_utc <= bet_timestamp], always pass the integrity
    check. *)
Lemma walk_forward_reports (id season_start : Z) (db : list Snapshot)
    (bets : list Z) (k : Z) (n : nat) :
  exists r, run_backtest id (walk_forward season_start db bets k n) = inr r.
Proof.
  eexists. apply run_backtest_ok_iff. split; [|reflexivity].
  revert k. induction n as [|n IH]; intros k f; simpl; [tauto|].
  intros [<-|Hf]; [apply fold_at_ok | now apply (IH (k + 1))].
Qed.

(** ** Pricing *)

Import Pricing.

Local Open Scope R_scope.

Lemma exp_pow_nat (y : R) (n : nat) : exp (INR n * y) = exp y ^ n.
Proof.
  induction n as [|n IH].
  - simpl. rewrite Rmult_0_l. apply exp_0.
  - rewrite S_INR, Rmult_plus_distr_r, Rmult_1_l, exp_plus, IH.
    simpl. ring.
Qed.

(** [exp (-x)] from below: [(1 - x/n)^n]. *)
Lemma exp_neg_lower (x N : R) (n : nat) :
  INR n = N -> 0 < N -> x <= N -> (1 - x / N) ^ n <= exp (- x).
Proof.
  intros HN Hpos Hx.
  replace (- x) with (INR n * (- x / N)) by (rewrite HN; field; lra).
  rewrite exp_pow_nat. apply pow_incr. split.
  - assert (x / N <= 1); [|lra].
    apply (Rmult_le_reg_r N); [exact Hpos|].
    unfold Rdiv. rewrite Rmult_assoc, Rinv_l by lra. lra.
  - replace (1 - x / N) with (1 + - x / N) by (field; lra).
    apply exp_ineq1_le.
Qed.

(** [exp (-x)] from above: [1 / (1 + x/n)^n]. *)
Lemma exp_neg_upper (x N : R) (n : nat) :
  INR n = N -> 0 < N -> 0 <= x -> exp (- x) <= / (1 + x / N) ^ n.
Proof.
  intros HN Hpos Hx. rewrite exp_Ropp.
  assert (Hb : 0 < 1 + x / N).
  { assert (0 <= x / N); [|lra].
    unfold Rdiv. apply Rmult_le_pos; [exact Hx|].
    left. now apply Rinv_0_lt_compat. }
  apply Rinv_le_contravar; [now apply pow_lt|].
  replace x with (INR n * (x / N)) at 2 by (rewrite HN; field; lra).
  rewrite exp_pow_nat. apply pow_incr. split; [lra|apply exp_ineq1_le].
Qed.

(** A power of a ratio of integers against a ratio of integers, decided
    on the integers. *)
Lemma ratio_le_pow (a b c d : Z) (n : nat) :
  (0 < b)%Z -> (0 < d)%Z ->
  (c * b ^ Z.of_nat n <= d * a ^ Z.of_nat n)%Z ->
  IZR c / IZR d <= (IZR a / IZR b) ^ n.
Proof.
  intros Hb Hd H. unfold Rdiv at 2.
  rewrite Rpow_mult_distr, pow_inv, !pow_IZR.
  apply IZR_lt in Hd.
  assert (HB : 0 < IZR (b ^ Z.of_nat n))
    by (apply IZR_lt, Z.pow_pos_nonneg; lia).
  apply IZR_le in H. rewrite !mult_IZR in H.
  set (A := IZR (a ^ Z.of_nat n)) in *.
  set (B := IZR (b ^ Z.of_nat n)) in *.
  apply (Rmult_le_reg_r (IZR d * B)); [now apply Rmult_lt_0_compat|].
  replace (IZR c / IZR d * (IZR d * B)) with (IZR c * B)
    by (field; lra).
  replace (A * / B * (IZR d * B)) with (IZR d * A) by (field; lra).
  exact H.
Qed.

Lemma INR_512 : INR 512 = 512.
Proof. rewrite INR_IZR_INZ. reflexivity. Qed.

(** [exp (-0.73)] lies between 0.4816 and 0.4822. *)
Lemma event_probability_073 :
  0.5178 <= event_probability 0.73 <= 0.5184.
Proof.
  unfold event_probability.
  assert (L : (1 - 0.73 / 512) ^ 512 <= exp (Ropp 0.73))
    by (apply exp_neg_lower; [apply INR_512|lra|lra]).
  assert (U : exp (Ropp 0.73) <= / (1 + 0.73 / 512) ^ 512)
    by (apply exp_neg_upper; [apply INR_512|lra|lra]).
  assert (L' : IZR 4816 / IZR 10000 <= (1 - 0.73 / 512) ^ 512).
  { replace (1 - 0.73 / 512) with (IZR 51127 / IZR 51200) by lra.
    apply ratio_le_pow; [lia|lia|].
    apply Z.leb_le. vm_compute. reflexivity. }
  assert (U' : / (1 + 0.73 / 512) ^ 512 <= / (IZR 10000 / IZR 4822)).
  { apply Rinv_le_contravar; [lra|].
    replace (1 + 0.73 / 512) with (IZR 51273 / IZR 51200) by lra.
    apply ratio_le_pow; [lia|lia|].
    apply Z.leb_le. vm_compute. reflexivity. }
  replace (/ (IZR 10000 / IZR 4822)) with 0.4822 in U' by lra.
  lra.
Qed.

(** The value shown on the recommendation card: lambda 0.47 gives
    P(score) 37.5 percent ([exp (-0.47)] lies between 0.6248 and
    0.6252). *)
Lemma event_probability_047 :
  0.3748 <= event_probability 0.47 <= 0.3752.
Proof.
  unfold event_probability.
  assert (L : (1 - 0.47 / 512) ^ 512 <= exp (Ropp 0.47))
    by (apply exp_neg_lower; [apply INR_512|lra|lra]).
  assert (U : exp (Ropp 0.47) <= / (1 + 0.47 / 512) ^ 512)
    by (apply exp_neg_upper; [apply INR_512|lra|lra]).
  assert (L' : IZR 6248 / IZR 10000 <= (1 - 0.47 / 512) ^ 512).
  { replace (1 - 0.47 / 512) with (IZR 51153 / IZR 51200) by lra.
    apply ratio_le_pow; [lia|lia|].
    apply Z.leb_le. vm_compute. reflexivity. }
  assert (U' : / (1 + 0.47 / 512) ^ 512 <= / (IZR 10000 / IZR 6252)).
  { apply Rinv_le_contravar; [lra|].
    replace (1 + 0.47 / 512) with (IZR 51247 / IZR 51200) by lra.
    apply ratio_le_pow; [lia|lia|].
    apply Z.leb_le. vm_compute. reflexivity. }
  replace (/ (IZR 10000 / IZR 6252)) with 0.6252 in U' by lra.
  lra.
Qed.

Lemma event_probability_increasing (l1 l2 : R) :
  l1 < l2 -> event_probability l1 < event_probability l2.
Proof.
  intros H. unfold event_probability.
  assert (exp (- l2) < exp (- l1)) by (apply exp_increasing; lra).
  lra.
Qed.

(** The weights of every profile sum to 100 percent. *)
Lemma GET_WEIGHTS_sum (p : PositionProfile) :
  Rsum (map (GET_WEIGHTS p) metrics) = 1.
Proof. destruct p; simpl; lra. Qed.

(** C8: both variants turn their lambda into [1 - e^(-lambda)], which is
    strictly increasing in lambda; lambda 0.61 + 0.12 = 0.73 gives a
    probability within 0.0005 of 0.518. *)
Theorem event_probability_poisson_monotone
    (league_avg : Metric -> R) (CALIBRATION_CONSTANT : R) :
  (forall lambda_open_play lambda_penalty,
     goalscorer_probability lambda_open_play lambda_penalty
     = 1 - exp (- (lambda_open_play + lambda_penalty)))
  /\ (forall player_stats profile,
        assist_probability league_avg CALIBRATION_CONSTANT player_stats profile
        = 1 - exp (- calculate_assist_lambda league_avg CALIBRATION_CONSTANT
                       player_stats profile))
  /\ (forall l1 l2, l1 < l2 -> event_probability l1 < event_probability l2)
  /\ 0.61 + 0.12 = 0.73
  /\ Rabs (goalscorer_probability 0.61 0.12 - 0.518) <= 0.0005.
Proof.
  split; [reflexivity|]. split; [reflexivity|].
  split; [exact event_probability_increasing|]. split; [lra|].
  unfold goalscorer_probability.
  replace (0.61 + 0.12) with 0.73 by lra.
  pose proof event_probability_073 as [L U].
  apply Rabs_le. lra.
Qed.

Lemma event_probability_poisson_monotone_witness :
  event_probability 0.61 < event_probability 0.73.
Proof.
  apply (proj1 (proj2 (proj2
           (event_probability_poisson_monotone (fun _ => 1) 1)))).
  lra.
Defined.

(** ** Login *)

Import Auth.

Local Open Scope string_scope.

Lemma strict_eq_true_iff (a : option string) (b : string) :
  strict_eq a b = true <-> a = Some b.
Proof.
  destruct a as [s|]; simpl.
  - rewrite String.eqb_eq. split; [now intros ->|now intros [= ->]].
  - split; discriminate.
Qed.

Lemma js_or_default (v : option string) (d : string) :
  v = None \/ v = Some "" -> js_or v d = d.
Proof. now intros [->| ->]. Qed.

Lemma js_or_set (s d : string) : s <> "" -> js_or (Some s) d = s.
Proof.
  intros Hs. simpl. destruct (String.eqb s "") eqn:E; [|reflexivity].
  apply String.eqb_eq in E. contradiction.
Qed.

Lemma authorize_some_iff (env : Env) (credentials : option Credentials) :
  authorize env credentials = Some admin_user <->
  exists c, credentials = Some c
            /\ username c = Some (validUsername env)
            /\ password c = Some (validPassword env).
Proof.
  unfold authorize.
  destruct (strict_eq (opt_chain credentials username) (validUsername env)
            && strict_eq (opt_chain credentials password) (validPassword env))
    eqn:E.
  - apply andb_true_iff in E as [Eu Ep].
    apply strict_eq_true_iff in Eu, Ep.
    split; [intros _|reflexivity].
    destruct credentials as [c|]; [|discriminate]. now exists c.
  - split; [discriminate|]. intros (c & -> & Hu & Hp). simpl in E.
    rewrite Hu, Hp in E. simpl in E. rewrite !String.eqb_refl in E.
    discriminate.
Qed.

(** With [ADMIN_USERNAME] set to the empty string the check does not
    compare against the environment value: the pair (empty username,
    admin) is refused and admin/admin is accepted, the opposite of what
    comparing with the environment value gives. *)
Lemma authorize_empty_env_value :
  env_empty_username "ADMIN_USERNAME" = Some ""
  /\ authorize_as_specified env_empty_username
       (Some {| username := Some ""; password := Some "admin" |})
     = Some admin_user
  /\ authorize env_empty_username
       (Some {| username := Some ""; password := Some "admin" |})
     = None
  /\ authorize_as_specified env_empty_username
       (Some {| username := Some "admin"; password := Some "admin" |})
     = None
  /\ authorize env_empty_username
       (Some {| username := Some "admin"; password := Some "admin" |})
     = Some admin_user.
Proof. repeat split. Qed.

(** C10 (amended): [authorize] returns the admin user exactly when the
    supplied username and password equal the expected ones, and null on
    every other input, missing credentials included; the expected value
    is the environment variable when it is set and not empty, and
    ['admin'] when it is unset or empty; with no environment
    configuration admin/admin is accepted and nothing else. *)
Theorem authorize_accepts_exactly_configured (env : Env)
    (credentials : option Credentials) :
  (authorize env credentials = Some admin_user <->
   exists c, credentials = Some c
             /\ username c = Some (validUsername env)
             /\ password c = Some (validPassword env))
  /\ (authorize env credentials <> Some admin_user ->
      authorize env credentials = None)
  /\ (forall v, env "ADMIN_USERNAME" = Some v -> v <> "" ->
                validUsername env = v)
  /\ (forall v, env "ADMIN_PASSWORD" = Some v -> v <> "" ->
                validPassword env = v)
  /\ (env "ADMIN_USERNAME" = None \/ env "ADMIN_USERNAME" = Some "" ->
      validUsername env = "admin")
  /\ (env "ADMIN_PASSWORD" = None \/ env "ADMIN_PASSWORD" = Some "" ->
      validPassword env = "admin")
  /\ (authorize no_env credentials = Some admin_user <->
      credentials = Some {| username := Some "admin";
                            password := Some "admin" |}).
Proof.
  split; [apply authorize_some_iff|].
  split.
  { unfold authorize. destruct (_ && _); intros H; [now elim H|reflexivity]. }
  split.
  { intros v Hv Hne. unfold validUsername. rewrite Hv. now apply js_or_set. }
  split.
  { intros v Hv Hne. unfold validPassword. rewrite Hv. now apply js_or_set. }
  split; [apply js_or_default|]. split; [apply js_or_default|].
  rewrite authorize_some_iff. split.
  - intros ([u p] & -> & Hu & Hp). simpl in *. now subst.
  - intros ->. eexists. split; [reflexivity|]. now split.
Qed.

Lemma authorize_accepts_exactly_configured_witness :
  authorize no_env None = None.
Proof.
  apply (proj1 (proj2 (authorize_accepts_exactly_configured no_env None))).
  discriminate.
Defined.

(** Where both variables are unset or hold a non-empty string, the check
    is the one the specification words. *)
Lemma authorize_as_specified_agrees (env : Env)
    (credentials : option Credentials) :
  env "ADMIN_USERNAME" <> Some "" -> env "ADMIN_PASSWORD" <> Some "" ->
  authorize env credentials = authorize_as_specified env credentials.
Proof.
  intros Hu Hp. unfold authorize, authorize_as_specified,
    validUsername, validPassword.
  assert (E : forall v, v <> Some "" ->
                        js_or v "admin" = env_value_or_admin v).
  { intros [s|] Hs; [|reflexivity]. cbn [env_value_or_admin].
    apply js_or_set. congruence. }
  now rewrite (E _ Hu), (E _ Hp).
Qed.

(** * Further properties of the documented formulas and of the frontend *)

(** ** Odds normalisation and edge *)

Local Open Scope Q_scope.

Lemma Qsum_ge_member (l : list Q) (x : Q) :
  Forall (fun y => 0 < y) l -> In x l -> x <= Qsum l.
Proof.
  intros Hpos. induction Hpos as [|y l Hy Hl IH]; simpl; [tauto|].
  intros [->|Hin].
  - assert (0 <= Qsum l); [|lra].
    destruct l as [|z l']; [simpl; lra|].
    apply Qlt_le_weak, Qsum_pos; [discriminate|exact Hl].
  - specialize (IH Hin). lra.
Qed.

Lemma Qsum_gt_member (l : list Q) (x : Q) :
  (2 <= List.length l)%nat -> Forall (fun y => 0 < y) l -> In x l ->
  x < Qsum l.
Proof.
  intros Hlen Hpos Hin. destruct l as [|a r]; [simpl in Hlen; lia|].
  inversion Hpos as [|? ? Ha Hr]; subst. simpl.
  destruct Hin as [->|Hin].
  - assert (0 < Qsum r); [|lra].
    apply Qsum_pos; [|exact Hr]. destruct r; [simpl in Hlen; lia|discriminate].
  - pose proof (Qsum_ge_member r x Hr Hin). lra.
Qed.

Lemma clean_probabilities_map (market : list Q) :
  clean_probabilities market
  = map (fun o => implied_probability o
                  / Qsum (implied_probabilities market)) market.
Proof.
  unfold clean_probabilities, remove_overround, implied_probabilities.
  now rewrite map_map.
Qed.

Lemma implied_probability_pos (o : Q) : 0 < o -> 0 < implied_probability o.
Proof.
  intros Ho. unfold implied_probability.
  apply Qlt_shift_div_l; [exact Ho|lra].
Qed.

Lemma implied_sum_pos (market : list Q) :
  market <> [] -> Forall (fun o => 0 < o) market ->
  0 < Qsum (implied_probabilities market).
Proof.
  intros Hne Hpos. apply Qsum_pos.
  - unfold implied_probabilities. destruct market; [congruence|discriminate].
  - now apply implied_probabilities_pos.
Qed.

(** X1: with at least two selections at positive odds, every cleaned
    probability lies strictly between 0 and 1. *)
Theorem clean_probabilities_strictly_between_0_and_1 (market : list Q) :
  (2 <= List.length market)%nat ->
  Forall (fun o => 0 < o) market ->
  Forall (fun p => 0 < p /\ p < 1) (clean_probabilities market).
Proof.
  intros Hlen Hpos.
  assert (HS : 0 < Qsum (implied_probabilities market)).
  { apply implied_sum_pos; [|exact Hpos].
    destruct market; [simpl in Hlen; lia|discriminate]. }
  unfold clean_probabilities, remove_overround.
  apply Forall_forall. intros p Hp.
  apply in_map_iff in Hp as (q & <- & Hq).
  assert (Hq0 : 0 < q).
  { pose proof (implied_probabilities_pos market Hpos) as H.
    rewrite Forall_forall in H. now apply H. }
  assert (HqS : q < Qsum (implied_probabilities market)).
  { apply Qsum_gt_member; [|now apply implied_probabilities_pos|exact Hq].
    unfold implied_probabilities. now rewrite length_map. }
  split.
  - apply Qlt_shift_div_l; [exact HS|lra].
  - apply Qlt_shift_div_r; [exact HS|lra].
Qed.

Lemma clean_probabilities_strictly_between_0_and_1_witness :
  Forall (fun p => 0 < p /\ p < 1) (clean_probabilities example_market).
Proof.
  apply (clean_probabilities_strictly_between_0_and_1 example_market).
  - simpl. lia.
  - unfold example_market. repeat constructor.
Defined.

Lemma clean_probabilities_nth (market : list Q) (i : nat) (p : Q) :
  nth_error (clean_probabilities market) i = Some p ->
  exists o, nth_error market i = Some o
            /\ p = implied_probability o
                   / Qsum (implied_probabilities market).
Proof.
  rewrite clean_probabilities_map, nth_error_map.
  destruct (nth_error market i) as [o|]; simpl; [|discriminate].
  intros [= <-]. now exists o.
Qed.

(** X2: margin removal keeps the ranking of a market: of two selections
    at positive odds, the one with the shorter odds gets the larger
    cleaned probability, strictly so when the odds differ. *)
Theorem clean_probabilities_keep_ranking (market : list Q) (i j : nat)
    (oi oj pi pj : Q) :
  Forall (fun o => 0 < o) market ->
  nth_error market i = Some oi ->
  nth_error market j = Some oj ->
  nth_error (clean_probabilities market) i = Some pi ->
  nth_error (clean_probabilities market) j = Some pj ->
  (oi <= oj -> pj <= pi) /\ (oi < oj -> pj < pi).
Proof.
  intros Hpos Hi Hj Hpi Hpj.
  apply clean_probabilities_nth in Hpi as (a & Ha & ->).
  apply clean_probabilities_nth in Hpj as (b & Hb & ->).
  rewrite Hi in Ha. rewrite Hj in Hb. injection Ha as <-. injection Hb as <-.
  assert (Hoi : 0 < oi)
    by (rewrite Forall_forall in Hpos; eapply Hpos, nth_error_In, Hi).
  assert (Hoj : 0 < oj)
    by (rewrite Forall_forall in Hpos; eapply Hpos, nth_error_In, Hj).
  assert (HS : 0 < Qsum (implied_probabilities market)).
  { apply implied_sum_pos; [|exact Hpos]. intros ->. now destruct i. }
  set (S := Qsum (implied_probabilities market)) in *.
  assert (HiS : 0 < / S) by now apply Qinv_lt_0_compat.
  unfold implied_probability, Qdiv. rewrite !Qmult_1_l. split; intros H.
  - apply Qmult_le_compat_r; [|lra].
    destruct (Qle_lt_or_eq _ _ H) as [Hlt|Heq].
    + apply Qlt_le_weak. now apply (Qinv_lt_contravar oi oj).
    + rewrite Heq. lra.
  - apply Qmult_lt_compat_r; [exact HiS|].
    now apply (Qinv_lt_contravar oi oj).
Qed.

Lemma clean_probabilities_keep_ranking_witness :
  nth 2 (clean_probabilities example_market) 0
  < nth 0 (clean_probabilities example_market) 0.
Proof.
  refine (proj2 (clean_probabilities_keep_ranking example_market 0 2
                   2.20 9.00
                   (nth 0 (clean_probabilities example_market) 0)
                   (nth 2 (clean_probabilities example_market) 0)
                   _ _ _ _ _) _).
  - unfold example_market. repeat constructor.
  - reflexivity.
  - reflexivity.
  - reflexivity.
  - reflexivity.
  - reflexivity.
Defined.

(** X3: the cleaned odds of a selection are its raw odds multiplied by
    the sum of the implied probabilities, that is by one plus the
    margin; the edge of a model probability [p] against the cleaned odds
    is its edge against the raw odds plus [p * odds * margin]. *)
Theorem clean_odds_are_raw_odds_times_overround (market : list Q)
    (i : nat) (o oc p : Q) :
  Forall (fun x => 0 < x) market ->
  nth_error market i = Some o ->
  nth_error (clean_odds market) i = Some oc ->
  oc == o * (1 + Market.margin market)
  /\ Edge.edge_pct p oc
     == Edge.edge_pct p o + p * o * Market.margin market
  /\ (0 <= Market.margin market -> o <= oc).
Proof.
  intros Hpos Hi Hoc. unfold clean_odds in Hoc.
  rewrite nth_error_map in Hoc.
  destruct (nth_error (clean_probabilities market) i) as [pc|] eqn:Hpc;
    [|discriminate].
  injection Hoc as <-.
  apply clean_probabilities_nth in Hpc as (a & Ha & ->).
  rewrite Hi in Ha. injection Ha as <-.
  assert (Ho : 0 < o)
    by (rewrite Forall_forall in Hpos; eapply Hpos, nth_error_In, Hi).
  assert (HS : 0 < Qsum (implied_probabilities market)).
  { apply implied_sum_pos; [|exact Hpos]. intros ->. now destruct i. }
  unfold Market.margin. set (S := Qsum (implied_probabilities market)) in *.
  assert (E : odds_clean (implied_probability o / S) == o * S).
  { unfold odds_clean, implied_probability. field. split; lra. }
  split; [rewrite E; ring|]. split.
  - unfold Edge.edge_pct. rewrite E. ring.
  - intros Hm. rewrite E.
    setoid_replace o with (o * 1) at 1 by ring.
    apply Qmult_le_l; [exact Ho|lra].
Qed.

Lemma clean_odds_are_raw_odds_times_overround_witness :
  2 <= nth 0 (clean_odds [2; 2; 4]) 0.
Proof.
  refine (proj2 (proj2 (clean_odds_are_raw_odds_times_overround
                          [2; 2; 4] 0 2 (nth 0 (clean_odds [2; 2; 4]) 0)
                          1 _ _ _)) _).
  - repeat constructor.
  - reflexivity.
  - reflexivity.
  - vm_compute. discriminate.
Defined.

Lemma divide_by_one (s : Q) (l : list Q) :
  s == 1 -> Forall2 Qeq (map (fun p => p / s) l) l.
Proof.
  intros Hs. induction l as [|x l IH]; simpl; constructor; [|exact IH].
  rewrite Hs. field.
Qed.

(** X4: margin removal is idempotent: cleaning probabilities that were
    already cleaned leaves each of them unchanged. *)
Theorem remove_overround_idempotent (ps : list Q) :
  ~ Qsum ps == 0 ->
  Forall2 Qeq (remove_overround (remove_overround ps))
              (remove_overround ps).
Proof.
  intros Hs. unfold remove_overround at 1.
  apply divide_by_one. now apply remove_overround_sum.
Qed.

Lemma remove_overround_idempotent_witness :
  Forall2 Qeq (remove_overround (remove_overround [0.5; 0.3; 0.3]))
              (remove_overround [0.5; 0.3; 0.3]).
Proof.
  apply (remove_overround_idempotent [0.5; 0.3; 0.3]).
  vm_compute. discriminate.
Defined.

(** X5: the two edge definitions of the odds-normalisation note agree:
    the relative gap between model and clean market probability equals
    the ratio of clean market odds to fair odds, minus one. *)
Theorem edge_probability_form_is_odds_ratio_form (p_model p_market_clean : Q) :
  0 < p_model -> 0 < p_market_clean ->
  Edge.edge_prob p_model p_market_clean
  == Edge.edge_odds_ratio (odds_clean p_market_clean) (Edge.EV0 p_model).
Proof.
  intros Hp Hm. unfold Edge.edge_prob, Edge.edge_odds_ratio, Edge.EV0,
    odds_clean.
  field. split; lra.
Qed.

Lemma edge_probability_form_is_odds_ratio_form_witness :
  Edge.edge_prob 0.5 0.4
  == Edge.edge_odds_ratio (odds_clean 0.4) (Edge.EV0 0.5).
Proof.
  apply (edge_probability_form_is_odds_ratio_form 0.5 0.4); reflexivity.
Defined.

(** X6: the edge is positive exactly when the bookmaker's odds are
    longer than the fair odds [1 / p], zero exactly when they are equal,
    and it grows with the odds. *)
Theorem edge_positive_iff_odds_above_fair (p o : Q) :
  0 < p ->
  (0 < Edge.edge_pct p o <-> Edge.EV0 p < o)
  /\ (Edge.edge_pct p o == 0 <-> o == Edge.EV0 p)
  /\ (forall o', o < o' -> Edge.edge_pct p o < Edge.edge_pct p o').
Proof.
  intros Hp. unfold Edge.edge_pct, Edge.EV0.
  assert (E : (1 / p) * p == 1) by (field; lra).
  split; [|split].
  - split; intros H.
    + apply Qlt_shift_div_r; [exact Hp|lra].
    + assert ((1 / p) * p < o * p) by (apply Qmult_lt_compat_r; assumption).
      lra.
  - split; intros H.
    + assert (E' : p * o == 1) by lra.
      rewrite <- E'. field. lra.
    + rewrite H. lra.
  - intros o' Ho.
    assert (o * p < o' * p) by (apply Qmult_lt_compat_r; assumption).
    lra.
Qed.

Lemma edge_positive_iff_odds_above_fair_witness :
  0 < Edge.edge_pct 0.5 2.30.
Proof.
  apply (proj1 (edge_positive_iff_odds_above_fair 0.5 2.30 ltac:(reflexivity))).
  reflexivity.
Defined.

(** ** Selection loop of [select_bets] *)

Local Open Scope Q_scope.

Lemma Qle_bool_false_iff (a b : Q) : Qle_bool a b = false <-> b < a.
Proof.
  split.
  - intros E. destruct (Qlt_le_dec b a) as [H|H]; [exact H|].
    apply Qle_bool_iff in H. congruence.
  - intros H. destruct (Qle_bool a b) eqn:E; [|reflexivity].
    apply Qle_bool_iff in E. lra.
Qed.

Lemma select_one_early (pred : Prediction) :
  select_one EARLY pred
  = if Qle_bool 70 (projected_mins pred) && Qle_bool 0.05 (Strategy.edge pred)
    then Some (create_bet pred (FLAT_UNIT * stake_factor EARLY))
    else None.
Proof.
  unfold select_one, min_mins, min_edge, Qlt_bool.
  cbn [phase_eqb andb].
  destruct (Qle_bool 70 (projected_mins pred)); cbn [negb andb];
    [|reflexivity].
  destruct (Qle_bool 0.05 (Strategy.edge pred)); reflexivity.
Qed.

Lemma select_one_lineup (pred : Prediction) :
  select_one LINEUP pred
  = if is_confirmed_starter pred && Qle_bool 0.03 (Strategy.edge pred)
    then Some (create_bet pred (FLAT_UNIT * stake_factor LINEUP))
    else None.
Proof.
  unfold select_one, min_edge, Qlt_bool.
  cbn [phase_eqb andb].
  destruct (is_confirmed_starter pred); cbn [negb andb]; [|reflexivity].
  destruct (Qle_bool 0.03 (Strategy.edge pred)); reflexivity.
Qed.

(** X7: one turn of the selection loop keeps a prediction in EARLY
    exactly when it has at least 70 projected minutes and an edge of at
    least 0.05 (both bounds included, the confirmed-starter flag is not
    read), and in LINEUP exactly when it is a confirmed starter with an
    edge of at least 0.03 (the projected minutes are not read); a kept
    prediction is staked 0.75 units in EARLY and 1 unit in LINEUP. *)
Theorem select_one_exact (pred : Prediction) :
  (select_one EARLY pred <> None <->
   70 <= projected_mins pred /\ 0.05 <= Strategy.edge pred)
  /\ (select_one LINEUP pred <> None <->
      is_confirmed_starter pred = true /\ 0.03 <= Strategy.edge pred)
  /\ (forall b, select_one EARLY pred = Some b ->
                bet_pred b = pred /\ Strategy.stake b == 0.75)
  /\ (forall b, select_one LINEUP pred = Some b ->
                bet_pred b = pred /\ Strategy.stake b == 1).
Proof.
  rewrite select_one_early, select_one_lineup.
  split; [|split; [|split]].
  - destruct (Qle_bool 70 (projected_mins pred)) eqn:Em;
      destruct (Qle_bool 0.05 (Strategy.edge pred)) eqn:Ee; cbn [andb];
      try apply Qle_bool_iff in Em; try apply Qle_bool_iff in Ee;
      try apply Qle_bool_false_iff in Em;
      try apply Qle_bool_false_iff in Ee;
      (split; [intros H; try (split; assumption); now elim H
              | intros [H1 H2]; try discriminate; lra]).
  - destruct (is_confirmed_starter pred);
      destruct (Qle_bool 0.03 (Strategy.edge pred)) eqn:Ee; cbn [andb];
      try apply Qle_bool_iff in Ee; try apply Qle_bool_false_iff in Ee;
      (split; [intros H; try (split; [reflexivity|assumption]); now elim H
              | intros [H1 H2]; try discriminate; lra]).
  - intros b. destruct (_ && _); [|discriminate].
    intros [= <-]. split; reflexivity.
  - intros b. destruct (_ && _); [|discriminate].
    intros [= <-]. split; reflexivity.
Qed.

(** A prediction on both bounds, 70 minutes and edge 0.05, is kept. *)
Lemma select_one_exact_witness :
  select_one EARLY
    {| fixture_id := "f"; player_id := "p"; match_day := "d";
       projected_mins := 70; is_confirmed_starter := false;
       Strategy.edge := 0.05 |} <> None.
Proof.
  apply (proj1 (select_one_exact _)). split; simpl; lra.
Defined.

Lemma candidate_bets_as_filter (predictions : list Prediction)
    (odds : OddsData) (phase : Phase) :
  candidate_bets predictions odds phase
  = map (fun pred => create_bet pred (FLAT_UNIT * stake_factor phase))
        (filter (fun pred =>
                   match phase with
                   | EARLY => Qle_bool 70 (projected_mins pred)
                              && Qle_bool 0.05 (Strategy.edge pred)
                   | LINEUP => is_confirmed_starter pred
                               && Qle_bool 0.03 (Strategy.edge pred)
                   end) predictions).
Proof.
  induction predictions as [|pred rest IH]; simpl; [reflexivity|].
  rewrite IH. destruct phase.
  - rewrite select_one_early. now destruct (_ && _).
  - rewrite select_one_lineup. now destruct (_ && _).
Qed.

(** X8: the selection loop is a filter followed by a map: the bets it
    builds are, in the order of the predictions, one bet per prediction
    that passes the phase's tests, each at the phase's stake; the odds it
    is handed play no part, and a list of predictions handled in two
    batches gives the bets of the whole list. *)
Theorem candidate_bets_filter_map (predictions more : list Prediction)
    (odds odds' : OddsData) (phase : Phase) :
  candidate_bets predictions odds phase
  = map (fun pred => create_bet pred (FLAT_UNIT * stake_factor phase))
        (filter (fun pred =>
                   match phase with
                   | EARLY => Qle_bool 70 (projected_mins pred)
                              && Qle_bool 0.05 (Strategy.edge pred)
                   | LINEUP => is_confirmed_starter pred
                               && Qle_bool 0.03 (Strategy.edge pred)
                   end) predictions)
  /\ candidate_bets predictions odds phase
     = candidate_bets predictions odds' phase
  /\ candidate_bets (predictions ++ more)%list odds phase
     = (candidate_bets predictions odds phase
        ++ candidate_bets more odds phase)%list.
Proof.
  split; [apply candidate_bets_as_filter|]. split.
  - now rewrite !candidate_bets_as_filter.
  - rewrite !candidate_bets_as_filter, filter_app, map_app. reflexivity.
Qed.

(** X9: a prediction kept in EARLY is kept again in LINEUP once the
    player is a confirmed starter, at a larger stake; a player who is not
    confirmed is dropped in LINEUP whatever the edge. *)
Theorem early_pick_kept_in_lineup_when_confirmed (pred : Prediction)
    (b : Bet) :
  select_one EARLY pred = Some b ->
  (is_confirmed_starter pred = true ->
   exists b', select_one LINEUP pred = Some b'
              /\ bet_pred b' = pred
              /\ Strategy.stake b < Strategy.stake b')
  /\ (is_confirmed_starter pred = false -> select_one LINEUP pred = None).
Proof.
  rewrite select_one_early, select_one_lineup.
  destruct (Qle_bool 70 (projected_mins pred)); cbn [andb]; [|discriminate].
  destruct (Qle_bool 0.05 (Strategy.edge pred)) eqn:Ee; [|discriminate].
  intros [= <-]. apply Qle_bool_iff in Ee. split; intros Hc; rewrite Hc.
  - cbn [andb].
    replace (Qle_bool 0.03 (Strategy.edge pred)) with true
      by (symmetry; apply Qle_bool_iff; lra).
    eexists. split; [reflexivity|]. split; reflexivity.
  - reflexivity.
Qed.

Lemma early_pick_kept_in_lineup_when_confirmed_witness :
  exists b', select_one LINEUP long_shot = Some b'
             /\ bet_pred b' = long_shot
             /\ 0.75 < Strategy.stake b'.
Proof.
  destruct (early_pick_kept_in_lineup_when_confirmed long_shot
              (create_bet long_shot (FLAT_UNIT * stake_factor EARLY))
              eq_refl) as [H _].
  destruct (H eq_refl) as (b' & Hb' & Hp & Hs).
  exists b'. split; [exact Hb'|]. split; [exact Hp|].
  eapply Qle_lt_trans; [|exact Hs]. vm_compute. discriminate.
Defined.

Lemma Qsum_const (c : Q) (l : list Q) :
  Forall (fun x => x == c) l ->
  Qsum l == c * inject_Z (Z.of_nat (List.length l)).
Proof.
  induction 1 as [|x l Hx _ IH].
  - simpl. ring.
  - cbn [Qsum List.length]. rewrite IH, Hx, Nat2Z.inj_succ.
    unfold Z.succ. rewrite inject_Z_plus. ring.
Qed.

(** X10: the loop never builds more bets than it received predictions,
    and the stake it proposes in total is the phase's stake times the
    number of bets: at most 0.75 units per prediction in EARLY and one
    unit per prediction in LINEUP. *)
Theorem candidate_bets_total_stake (predictions : list Prediction)
    (odds : OddsData) (phase : Phase) :
  (List.length (candidate_bets predictions odds phase)
   <= List.length predictions)%nat
  /\ Qsum (map Strategy.stake (candidate_bets predictions odds phase))
     == stake_factor phase
        * inject_Z (Z.of_nat
                      (List.length (candidate_bets predictions odds phase)))
  /\ Qsum (map Strategy.stake (candidate_bets predictions odds phase))
     <= stake_factor phase
        * inject_Z (Z.of_nat (List.length predictions)).
Proof.
  assert (Hlen : (List.length (candidate_bets predictions odds phase)
                  <= List.length predictions)%nat).
  { rewrite candidate_bets_as_filter, length_map. apply filter_length_le. }
  assert (Hsum : Qsum (map Strategy.stake
                           (candidate_bets predictions odds phase))
                 == stake_factor phase
                    * inject_Z (Z.of_nat
                        (List.length
                           (candidate_bets predictions odds phase)))).
  { rewrite <- (length_map Strategy.stake
                   (candidate_bets predictions odds phase)).
    apply Qsum_const. rewrite candidate_bets_as_filter, map_map.
    apply Forall_forall. intros x Hx.
    apply in_map_iff in Hx as (p & <- & _). simpl.
    unfold FLAT_UNIT. ring. }
  split; [exact Hlen|]. split; [exact Hsum|].
  rewrite Hsum. apply Qmult_le_l; [now destruct phase|].
  rewrite <- Zle_Qle. lia.
Qed.

(** ** Assist intensity ([calculate_assist_lambda]) *)

Local Open Scope R_scope.

Lemma Rsum_map_le {A : Type} (f g : A -> R) (l : list A) :
  (forall x, f x <= g x) -> Rsum (map f l) <= Rsum (map g l).
Proof.
  intros H. induction l as [|x l IH]; simpl; [lra|].
  specialize (H x). lra.
Qed.

Lemma Rsum_map_ext {A : Type} (f g : A -> R) (l : list A) :
  (forall x, f x = g x) -> Rsum (map f l) = Rsum (map g l).
Proof.
  intros H. induction l as [|x l IH]; simpl; [reflexivity|].
  now rewrite H, IH.
Qed.

Lemma GET_WEIGHTS_nonneg (p : PositionProfile) (m : Metric) :
  0 <= GET_WEIGHTS p m.
Proof. destruct p, m; simpl; lra. Qed.

(** X11: a player whose every metric equals the league average gets
    lambda equal to the calibration constant, whatever the profile (the
    weights of each profile sum to 100 percent). *)
Theorem league_average_player_lambda (league_avg : Metric -> R)
    (CALIBRATION_CONSTANT : R) (profile : PositionProfile) :
  (forall m, league_avg m <> 0) ->
  calculate_assist_lambda league_avg CALIBRATION_CONSTANT league_avg profile
  = CALIBRATION_CONSTANT.
Proof.
  intros Hne. unfold calculate_assist_lambda. cbv zeta.
  rewrite (Rsum_map_ext _ (GET_WEIGHTS profile)).
  - rewrite GET_WEIGHTS_sum. ring.
  - intros m. unfold Rdiv. rewrite Rinv_r by apply Hne. ring.
Qed.

Lemma league_average_player_lambda_witness :
  calculate_assist_lambda (fun _ => 2) 0.1 (fun _ => 2) Forward = 0.1.
Proof.
  apply (league_average_player_lambda (fun _ => 2) 0.1 Forward).
  intros _. lra.
Defined.

(** X12: lambda is linear in the player's metrics: scaling every metric
    by [c] scales lambda by [c], and the lambda of the sum of two stat
    lines is the sum of their lambdas. *)
Theorem calculate_assist_lambda_linear (league_avg : Metric -> R)
    (CALIBRATION_CONSTANT : R) (profile : PositionProfile)
    (stats stats' : Metric -> R) (c : R) :
  (forall m, league_avg m <> 0) ->
  calculate_assist_lambda league_avg CALIBRATION_CONSTANT
    (fun m => c * stats m) profile
  = c * calculate_assist_lambda league_avg CALIBRATION_CONSTANT stats profile
  /\ calculate_assist_lambda league_avg CALIBRATION_CONSTANT
       (fun m => stats m + stats' m) profile
     = calculate_assist_lambda league_avg CALIBRATION_CONSTANT stats profile
       + calculate_assist_lambda league_avg CALIBRATION_CONSTANT stats' profile.
Proof.
  intros _. unfold calculate_assist_lambda, metrics. cbv zeta. simpl.
  split; unfold Rdiv; ring.
Qed.

Lemma calculate_assist_lambda_linear_witness :
  calculate_assist_lambda (fun _ => 1) 0.1 (fun m => 2 * 3) AxialCreator
  = 2 * calculate_assist_lambda (fun _ => 1) 0.1 (fun _ => 3) AxialCreator.
Proof.
  refine (proj1 (calculate_assist_lambda_linear (fun _ => 1) 0.1
                   AxialCreator (fun _ => 3) (fun _ => 0) 2 _)).
  intros _. lra.
Defined.

(** X13: with positive league averages and a non-negative calibration
    constant, lambda never decreases when the player's metrics increase. *)
Theorem calculate_assist_lambda_monotone (league_avg : Metric -> R)
    (CALIBRATION_CONSTANT : R) (profile : PositionProfile)
    (stats stats' : Metric -> R) :
  (forall m, 0 < league_avg m) ->
  0 <= CALIBRATION_CONSTANT ->
  (forall m, stats m <= stats' m) ->
  calculate_assist_lambda league_avg CALIBRATION_CONSTANT stats profile
  <= calculate_assist_lambda league_avg CALIBRATION_CONSTANT stats' profile.
Proof.
  intros Havg HK Hle. unfold calculate_assist_lambda. cbv zeta.
  apply Rmult_le_compat_r; [exact HK|].
  apply Rsum_map_le. intros m.
  apply Rmult_le_compat_l; [apply GET_WEIGHTS_nonneg|].
  unfold Rdiv. apply Rmult_le_compat_r; [|apply Hle].
  left. apply Rinv_0_lt_compat, Havg.
Qed.

Lemma calculate_assist_lambda_monotone_witness :
  calculate_assist_lambda (fun _ => 1) 0.1 (fun _ => 2) Forward
  <= calculate_assist_lambda (fun _ => 1) 0.1 (fun _ => 3) Forward.
Proof.
  apply (calculate_assist_lambda_monotone (fun _ => 1) 0.1 Forward
           (fun _ => 2) (fun _ => 3)).
  - intros _. lra.
  - lra.
  - intros _. lra.
Defined.

(** X14: a metric whose weight is zero in a profile has no effect on
    lambda: crosses for an axial creator, passes into the box and
    crosses for a forward. *)
Theorem zero_weight_metrics_ignored (league_avg : Metric -> R)
    (CALIBRATION_CONSTANT : R) (profile : PositionProfile)
    (stats stats' : Metric -> R) :
  (forall m, GET_WEIGHTS profile m <> 0 -> stats m = stats' m) ->
  calculate_assist_lambda league_avg CALIBRATION_CONSTANT stats profile
  = calculate_assist_lambda league_avg CALIBRATION_CONSTANT stats' profile
  /\ GET_WEIGHTS AxialCreator Centres = 0
  /\ GET_WEIGHTS Forward PassesSurface = 0
  /\ GET_WEIGHTS Forward Centres = 0.
Proof.
  intros Hagree. split; [|now repeat split].
  unfold calculate_assist_lambda. cbv zeta. f_equal.
  apply Rsum_map_ext. intros m.
  destruct (Req_dec (GET_WEIGHTS profile m) 0) as [E|E].
  - rewrite E. ring.
  - now rewrite (Hagree m E).
Qed.

Lemma zero_weight_metrics_ignored_witness :
  calculate_assist_lambda (fun _ => 1) 0.1
    (fun m => match m with Centres => 9 | _ => 1 end) AxialCreator
  = calculate_assist_lambda (fun _ => 1) 0.1 (fun _ => 1) AxialCreator.
Proof.
  refine (proj1 (zero_weight_metrics_ignored (fun _ => 1) 0.1 AxialCreator
                   (fun m => match m with Centres => 9 | _ => 1 end)
                   (fun _ => 1) _)).
  intros m Hm. destruct m; try reflexivity. simpl in Hm. now elim Hm.
Defined.

(** ** Login and session callbacks *)

Local Open Scope string_scope.

Lemma js_or_not_empty (v : option string) (d : string) :
  d <> "" -> js_or v d <> "".
Proof.
  intros Hd. destruct v as [s|]; simpl; [|exact Hd].
  destruct (String.eqb s "") eqn:E; [exact Hd|].
  intros ->. simpl in E. discriminate.
Qed.

(** X15: whatever the environment holds, [authorize] refuses missing
    credentials, a missing or empty username and a missing or empty
    password: an empty [ADMIN_USERNAME] or [ADMIN_PASSWORD] never opens
    the login to empty input. *)
Theorem authorize_refuses_empty_input (env : Env)
    (credentials : option Credentials) :
  (credentials = None
   \/ opt_chain credentials username = None
   \/ opt_chain credentials username = Some ""
   \/ opt_chain credentials password = None
   \/ opt_chain credentials password = Some "") ->
  authorize env credentials = None.
Proof.
  intros H.
  assert (Hu : validUsername env <> "")
    by (apply js_or_not_empty; discriminate).
  assert (Hp : validPassword env <> "")
    by (apply js_or_not_empty; discriminate).
  destruct (authorize env credentials) as [u|] eqn:E; [|reflexivity].
  exfalso.
  assert (E' : authorize env credentials = Some admin_user).
  { revert E. unfold authorize. destruct (_ && _); [easy|discriminate]. }
  apply authorize_some_iff in E' as (c & -> & Hcu & Hcp). simpl in H.
  destruct H as [H|[H|[H|[H|H]]]]; congruence.
Qed.

Lemma authorize_refuses_empty_input_witness :
  authorize env_empty_username
    (Some {| username := Some ""; password := Some "admin" |}) = None.
Proof.
  apply (authorize_refuses_empty_input env_empty_username).
  right. right. left. reflexivity.
Defined.

(** X16: the default pair admin/admin is accepted exactly when each of
    the two variables is unset, empty or equal to ['admin']: setting
    either variable to any other value closes the default login. *)
Theorem default_login_open_iff (env : Env) :
  authorize env (Some {| username := Some "admin";
                         password := Some "admin" |})
  = Some admin_user
  <->
  (env "ADMIN_USERNAME" = None \/ env "ADMIN_USERNAME" = Some ""
   \/ env "ADMIN_USERNAME" = Some "admin")
  /\ (env "ADMIN_PASSWORD" = None \/ env "ADMIN_PASSWORD" = Some ""
      \/ env "ADMIN_PASSWORD" = Some "admin").
Proof.
  rewrite authorize_some_iff.
  assert (K : forall v, js_or v "admin" = "admin" <->
                        (v = None \/ v = Some "" \/ v = Some "admin")).
  { intros [s|]; simpl.
    - destruct (String.eqb s "") eqn:E.
      + apply String.eqb_eq in E. subst. tauto.
      + split; [intros ->; tauto|].
        intros [H|[H|H]]; try discriminate.
        * injection H as ->. simpl in E. discriminate.
        * now injection H.
    - tauto. }
  unfold validUsername, validPassword. split.
  - intros (c & [= <-] & Hu & Hp). simpl in Hu, Hp.
    injection Hu as Hu. injection Hp as Hp.
    split; apply K; congruence.
  - intros [Hu Hp]. apply K in Hu, Hp. eexists. split; [reflexivity|].
    simpl. now rewrite Hu, Hp.
Qed.

Import AuthSession.

(** X17: after a successful [authorize], the [jwt] callback stores the
    role ['admin'] in the token, later [jwt] calls (no user) leave the
    token as it is, and the [session] callback copies that role into the
    session user, keeping its name and email. *)
Theorem login_role_reaches_session (env : Env)
    (credentials : option Credentials) (u : User) (token : Token)
    (s : Session) (su : SessionUser) :
  authorize env credentials = Some u ->
  AuthSession.user s = Some su ->
  token_role (jwt token (Some u)) = Some "admin"
  /\ jwt (jwt token (Some u)) None = jwt token (Some u)
  /\ AuthSession.user (session s (jwt (jwt token (Some u)) None))
     = Some {| su_name := su_name su; su_email := su_email su;
               su_role := Some "admin" |}.
Proof.
  intros Hauth Hsu.
  assert (Hu : u = admin_user).
  { revert Hauth. unfold authorize. destruct (_ && _); congruence. }
  subst u. split; [reflexivity|]. split; [reflexivity|].
  unfold session. rewrite Hsu. reflexivity.
Qed.

Lemma login_role_reaches_session_witness :
  token_role (jwt {| sub := None; token_role := None |} (Some admin_user))
  = Some "admin".
Proof.
  refine (proj1 (login_role_reaches_session no_env
            (Some {| username := Some "admin"; password := Some "admin" |})
            admin_user {| sub := None; token_role := None |}
            {| AuthSession.user :=
                 Some {| su_name := None; su_email := None;
                         su_role := None |};
               expires := "" |}
            {| su_name := None; su_email := None; su_role := None |} _ _));
    reflexivity.
Defined.

(** ** Sidebar *)

Import Sidebar.

Lemma filter_isActive_absent (pathname : string) (l : list NavItem) :
  ~ In pathname (map href l) -> filter (isActive pathname) l = [].
Proof.
  induction l as [|x l IH]; simpl; [reflexivity|]. intros Hn.
  unfold isActive at 1. destruct (String.eqb_spec pathname (href x)) as [E|E].
  - elim Hn. now left.
  - apply IH. tauto.
Qed.

Lemma filter_isActive_NoDup (pathname : string) (l : list NavItem) :
  NoDup (map href l) ->
  (List.length (filter (isActive pathname) l) <= 1)%nat.
Proof.
  induction l as [|x l IH]; simpl; [lia|]. intros Hnd.
  inversion Hnd as [|? ? Hx Hl]; subst.
  unfold isActive at 1. destruct (String.eqb_spec pathname (href x)) as [E|E].
  - rewrite filter_isActive_absent by now rewrite E. simpl. lia.
  - now apply IH.
Qed.

(** X18: for every pathname at most one navigation item is rendered
    active, and one is exactly when the pathname is one of the six
    hrefs: the match is exact, so a sub-page of /dashboard leaves the
    Dashboard item inactive. *)
Theorem sidebar_at_most_one_active (pathname : string) :
  (List.length (active_items pathname) <= 1)%nat
  /\ (active_items pathname <> [] <-> In pathname (map href navigation))
  /\ Forall (fun item => href item = pathname) (active_items pathname).
Proof.
  unfold active_items. split; [|split].
  - apply filter_isActive_NoDup. simpl.
    repeat constructor; simpl; intuition discriminate.
  - split.
    + intros Hne.
      destruct (in_dec string_dec pathname (map href navigation)) as [H|H];
        [exact H|].
      now rewrite filter_isActive_absent in Hne.
    + intros Hin. apply in_map_iff in Hin as (x & Hx & Hin).
      assert (In x (filter (isActive pathname) navigation)).
      { apply filter_In. split; [exact Hin|].
        unfold isActive. rewrite Hx. apply String.eqb_refl. }
      intros E. rewrite E in H. contradiction.
  - apply Forall_forall. intros x Hx. apply filter_In in Hx as [_ Hx].
    unfold isActive in Hx. apply String.eqb_eq in Hx. congruence.
Qed.

(** ** Recommendations page and card *)

Import Recommendations.

Local Open Scope Q_scope.

Lemma keep_rec_true_iff (mf : MarketFilter) (ef : EdgeFilter)
    (rec : Recommendation) :
  keep_rec mf ef rec = true <->
  (mf = market_all \/ Recommendations.market rec = market_filter_value mf)
  /\ match ef with
     | edge_all => True
     | edge_5 => 0.05 <= Recommendations.edge rec
     | edge_10 => 0.10 <= Recommendations.edge rec
     | edge_15 => 0.15 <= Recommendations.edge rec
     end.
Proof.
  unfold keep_rec.
  assert (M : (negb (String.eqb (market_filter_value mf) "all")
               && negb (String.eqb (Recommendations.market rec)
                                   (market_filter_value mf))) = false
              <-> (mf = market_all
                   \/ Recommendations.market rec = market_filter_value mf)).
  { destruct (String.eqb_spec (Recommendations.market rec)
                (market_filter_value mf)) as [E|E].
    - rewrite andb_false_r. tauto.
    - rewrite andb_true_r. destruct mf; simpl in *; split; try tauto;
        try discriminate; intros [H|H]; congruence. }
  destruct (negb (String.eqb (market_filter_value mf) "all") && _).
  - split; [discriminate|]. intros [H _]. apply M in H. discriminate.
  - destruct ef; cbn [edge_filter_eqb andb].
    + intuition.
    + destruct (Qlt_bool (Recommendations.edge rec) 0.05) eqn:E.
      * apply Qlt_bool_iff in E. split; [discriminate|]. intros [_ H]. lra.
      * apply Qlt_bool_false_iff in E. intuition.
    + destruct (Qlt_bool (Recommendations.edge rec) 0.10) eqn:E.
      * apply Qlt_bool_iff in E. split; [discriminate|]. intros [_ H]. lra.
      * apply Qlt_bool_false_iff in E. intuition.
    + destruct (Qlt_bool (Recommendations.edge rec) 0.15) eqn:E.
      * apply Qlt_bool_iff in E. split; [discriminate|]. intros [_ H]. lra.
      * apply Qlt_bool_false_iff in E. intuition.
Qed.

(** X19: a recommendation is listed exactly when it is in the fetched
    data, its market is the selected one (or the market filter is
    'all') and its edge reaches the selected threshold (0.05, 0.10 or
    0.15, bound included); nothing is listed before the data arrives,
    and a higher edge filter only removes rows. *)
Theorem filteredRecs_exact (data : option (list Recommendation))
    (mf : MarketFilter) (ef : EdgeFilter) (rec : Recommendation) :
  (In rec (filteredRecs data mf ef) <->
   In rec (match data with Some l => l | None => [] end)
   /\ (mf = market_all \/ Recommendations.market rec = market_filter_value mf)
   /\ match ef with
      | edge_all => True
      | edge_5 => 0.05 <= Recommendations.edge rec
      | edge_10 => 0.10 <= Recommendations.edge rec
      | edge_15 => 0.15 <= Recommendations.edge rec
      end)
  /\ filteredRecs None mf ef = []
  /\ incl (filteredRecs data mf edge_15) (filteredRecs data mf edge_10)
  /\ incl (filteredRecs data mf edge_10) (filteredRecs data mf edge_5)
  /\ incl (filteredRecs data mf edge_5) (filteredRecs data mf edge_all).
Proof.
  split; [|split; [reflexivity|]].
  - unfold filteredRecs. rewrite filter_In, keep_rec_true_iff. tauto.
  - unfold incl, filteredRecs.
    repeat split; intros r; rewrite !filter_In, !keep_rec_true_iff;
      intros (Hin & Hm & He); repeat split; try assumption; lra.
Qed.

(** X20: a recommendation listed under the 'goalscorer' or the 'assist'
    market filter is never drawn with the goalscorer badge: the page
    filters on the market names 'goalscorer' and 'assist' while the card
    tests for 'Buteur', so both kinds get the blue badge. *)
Theorem filtered_market_never_gets_goalscorer_badge
    (data : option (list Recommendation)) (mf : MarketFilter)
    (ef : EdgeFilter) (rec : Recommendation) :
  mf <> market_all ->
  In rec (filteredRecs data mf ef) ->
  market_badge_class rec = "bg-blue-500/20 text-blue-400"%string.
Proof.
  intros Hmf Hin. unfold filteredRecs in Hin.
  apply filter_In in Hin as [_ Hk].
  apply keep_rec_true_iff in Hk as ([Hm|Hm] & _); [contradiction|].
  unfold market_badge_class. rewrite Hm. now destruct mf.
Qed.

(** The first row of the page's data, a goalscorer pick, listed under
    the 'goalscorer' filter. *)
Lemma filtered_market_never_gets_goalscorer_badge_witness :
  market_badge_class
    {| Recommendations.id := "1"; player := "Kylian Mbappe";
       team := "Paris Saint-Germain"; opponent := "Olympique Lyon";
       Recommendations.market := "goalscorer"; fairOdds := 1.95;
       bestOdds := 2.25; bookmaker := "Betclic";
       Recommendations.edge := 0.154; confidence := 0.82;
       kickoff := "2024-02-01T20:45:00Z" |}
  = "bg-blue-500/20 text-blue-400"%string.
Proof.
  apply (filtered_market_never_gets_goalscorer_badge
           (Some [ {| Recommendations.id := "1"; player := "Kylian Mbappe";
                      team := "Paris Saint-Germain";
                      opponent := "Olympique Lyon";
                      Recommendations.market := "goalscorer";
                      fairOdds := 1.95; bestOdds := 2.25;
                      bookmaker := "Betclic";
                      Recommendations.edge := 0.154; confidence := 0.82;
                      kickoff := "2024-02-01T20:45:00Z" |} ])
           market_goalscorer edge_5).
  - discriminate.
  - vm_compute. left. reflexivity.
Defined.

(** *** The approve / reject buttons of the card *)

Lemma click_all_parity (clicks : list Button) :
  forall s s', click_all s clicks = Some s' ->
    if Nat.even (List.length clicks)
    then (s = Recommendations.pending <-> s' = Recommendations.pending)
    else (s = Recommendations.pending <-> s' <> Recommendations.pending).
Proof.
  induction clicks as [|b rest IH]; intros s s'.
  - simpl. intros [= <-]. tauto.
  - cbn [click_all List.length]. rewrite Nat.even_succ, <- Nat.negb_even.
    destruct (existsb _ (buttons s)) eqn:Ev; [|discriminate].
    intros H. specialize (IH _ _ H).
    assert (Hflip : s = Recommendations.pending
                    <-> onClick b <> Recommendations.pending).
    { destruct s, b; simpl in Ev; try discriminate; simpl;
        split; congruence. }
    destruct (Nat.even (List.length rest)); cbn [negb].
    + split.
      * intros Hs Hs'. apply Hflip in Hs. apply Hs. now apply IH.
      * intros Hs'. apply Hflip. intros Hb. apply Hs'. now apply IH.
    + split.
      * intros Hs. apply Hflip in Hs.
        destruct s'; try reflexivity;
          exfalso; apply Hs; apply IH; discriminate.
      * intros Hs'. apply Hflip. intros Hb. apply IH in Hb. contradiction.
Qed.

(** X21: on a recommendation card every click on a rendered button
    switches between 'pending' and a decision: a decision is reached
    from 'pending' after an odd number of clicks, 'pending' is back
    after an even number, and an approved card cannot become rejected
    (nor a rejected one approved) in one click. *)
Theorem card_status_alternates (clicks : list Button)
    (s s' : CardStatus) :
  click_all s clicks = Some s' ->
  (Nat.even (List.length clicks) = true ->
   (s = Recommendations.pending <-> s' = Recommendations.pending))
  /\ (Nat.even (List.length clicks) = false ->
      (s = Recommendations.pending <-> s' <> Recommendations.pending))
  /\ (forall b, click_all approved [b] <> Some rejected
                /\ click_all rejected [b] <> Some approved).
Proof.
  intros H. apply click_all_parity in H.
  split; [|split].
  - intros E. now rewrite E in H.
  - intros E. now rewrite E in H.
  - intros b. destruct b; simpl; split; discriminate.
Qed.

Lemma card_status_alternates_witness :
  Recommendations.pending = Recommendations.pending
  <-> rejected <> Recommendations.pending.
Proof.
  refine (proj1 (proj2 (card_status_alternates
                          [Approuver; Annuler; Rejeter]
                          Recommendations.pending rejected _)) _);
    reflexivity.
Defined.

(** ** History page *)

Import History.

Local Open Scope Q_scope.

Section SortBy.

Context {A : Type}.
Variable cmp : A -> A -> JsNumber.

Lemma insert_by_perm (x : A) (l : list A) :
  Permutation (insert_by cmp x l) (x :: l).
Proof.
  induction l as [|y l IH]; simpl; [reflexivity|].
  destruct (Qle_bool (sort_compare (cmp x y)) 0); [reflexivity|].
  rewrite IH. apply perm_swap.
Qed.

Lemma sort_by_perm (l : list A) : Permutation (sort_by cmp l) l.
Proof.
  induction l as [|x l IH]; simpl; [reflexivity|].
  unfold sort_by in *. simpl. rewrite insert_by_perm. now constructor.
Qed.

(** [R] is the order to establish, [P] holds of the elements on which
    the comparator decides it. *)
Variable R : A -> A -> Prop.
Variable P : A -> Prop.

Hypothesis cmp_le : forall a b, P a -> P b ->
  Qle_bool (sort_compare (cmp a b)) 0 = true -> R a b.
Hypothesis cmp_gt : forall a b, P a -> P b ->
  Qle_bool (sort_compare (cmp a b)) 0 = false -> R b a.

Lemma insert_by_HdRel (a x : A) (l : list A) :
  R a x -> HdRel R a l -> HdRel R a (insert_by cmp x l).
Proof.
  intros Hax Hal. destruct l as [|y l]; simpl.
  - now constructor.
  - destruct (Qle_bool (sort_compare (cmp x y)) 0); constructor;
      [exact Hax|]. now inversion Hal.
Qed.

Lemma insert_by_sorted (x : A) (l : list A) :
  P x -> Forall P l -> Sorted R l -> Sorted R (insert_by cmp x l).
Proof.
  intros Px Pl Hs. induction Hs as [|y l Hs IH Hd]; simpl.
  - repeat constructor.
  - inversion Pl as [|? ? Py Pl']; subst.
    destruct (Qle_bool (sort_compare (cmp x y)) 0) eqn:E.
    + repeat constructor; try assumption. now apply cmp_le.
    + constructor; [now apply IH|].
      apply insert_by_HdRel; [|exact Hd]. now apply cmp_gt.
Qed.

Lemma sort_by_sorted (l : list A) :
  Forall P l -> Sorted R (sort_by cmp l).
Proof.
  induction 1 as [|x l Px Pl IH]; [constructor|].
  unfold sort_by in *. simpl. apply insert_by_sorted; [exact Px| |exact IH].
  eapply Permutation_Forall; [|exact Pl].
  apply Permutation_sym, sort_by_perm.
Qed.

End SortBy.

Lemma StronglySorted_weaken {A : Type} (R R' : A -> A -> Prop)
    (l : list A) :
  (forall a b, R a b -> R' a b) ->
  StronglySorted R l -> StronglySorted R' l.
Proof.
  intros H. induction 1 as [|a l Hs IH Hall]; constructor; [exact IH|].
  eapply Forall_impl; [|exact Hall]. intros b. apply H.
Qed.

Section HistoryPage.

Variable getTime : string -> option Z.

Lemma inject_Z_sub (x y : Z) : inject_Z (x - y) == inject_Z x - inject_Z y.
Proof. unfold Z.sub. rewrite inject_Z_plus, inject_Z_opp. ring. Qed.

(** [a] stands rightly before [b]: the comparator answers a number, and
    it is not positive. *)
Lemma compareFn_trans (f : SortField) (d : SortDir)
    (a b c : HistoricalBet) :
  (exists v, compareFn getTime f d a b = Some v /\ v <= 0) ->
  (exists v, compareFn getTime f d b c = Some v /\ v <= 0) ->
  exists v, compareFn getTime f d a c = Some v /\ v <= 0.
Proof.
  unfold compareFn. intros (v1 & E1 & H1) (v2 & E2 & H2).
  destruct f; cbn [field_eqb] in *.
  - destruct (getTime (date a)) as [ta|]; [|destruct (getTime (date b)); discriminate].
    destruct (getTime (date b)) as [tb|]; [|discriminate].
    destruct (getTime (date c)) as [tc|]; [|discriminate].
    injection E1 as <-. injection E2 as <-.
    eexists. split; [reflexivity|].
    rewrite inject_Z_sub in *. destruct d; cbn [mult] in *; lra.
  - injection E1 as <-. injection E2 as <-.
    eexists. split; [reflexivity|]. destruct d; cbn [mult] in *; lra.
  - injection E1 as <-. injection E2 as <-.
    eexists. split; [reflexivity|]. destruct d; cbn [mult] in *; lra.
Qed.

Lemma compareFn_decides (f : SortField) (d : SortDir)
    (a b : HistoricalBet) :
  (f = by_date -> getTime (date a) <> None) ->
  (f = by_date -> getTime (date b) <> None) ->
  (Qle_bool (sort_compare (compareFn getTime f d a b)) 0 = true ->
   exists v, compareFn getTime f d a b = Some v /\ v <= 0)
  /\ (Qle_bool (sort_compare (compareFn getTime f d a b)) 0 = false ->
      exists v, compareFn getTime f d b a = Some v /\ v <= 0).
Proof.
  intros Pa Pb. unfold compareFn. destruct f; cbn [field_eqb].
  - destruct (getTime (date a)) as [ta|]; [|now elim Pa].
    destruct (getTime (date b)) as [tb|]; [|now elim Pb].
    cbn [sort_compare]. split; intros E.
    + apply Qle_bool_iff in E. eauto.
    + apply Qle_bool_false_iff in E. eexists. split; [reflexivity|].
      rewrite inject_Z_sub in *. destruct d; cbn [mult] in *; lra.
  - cbn [sort_compare]. split; intros E.
    + apply Qle_bool_iff in E. eauto.
    + apply Qle_bool_false_iff in E. eexists. split; [reflexivity|].
      destruct d; cbn [mult] in *; lra.
  - cbn [sort_compare]. split; intros E.
    + apply Qle_bool_iff in E. eauto.
    + apply Qle_bool_false_iff in E. eexists. split; [reflexivity|].
      destruct d; cbn [mult] in *; lra.
Qed.

Lemma filteredBets_sorted (bets : list HistoricalBet) (sf : StatusFilter)
    (f : SortField) (d : SortDir) :
  (f = by_date -> Forall (fun b => getTime (date b) <> None) bets) ->
  StronglySorted
    (fun a b => exists v, compareFn getTime f d a b = Some v /\ v <= 0)
    (filteredBets getTime bets sf f d).
Proof.
  intros Hparse. apply Sorted_StronglySorted.
  - intros a b c. apply compareFn_trans.
  - apply (sort_by_sorted _ _
             (fun b => f = by_date -> getTime (date b) <> None)).
    + intros a b Pa Pb. now apply compareFn_decides.
    + intros a b Pa Pb. now apply compareFn_decides.
    + apply Forall_forall. intros b Hb Hf.
      apply filter_In in Hb as [Hb _]. specialize (Hparse Hf).
      rewrite Forall_forall in Hparse. now apply Hparse.
Qed.

(** X22: the rows of the history table are exactly the bets whose
    status passes the filter, each once, whatever the dates; when the
    table is sorted by P&L or by edge, or when every date parses, the
    rows are arranged so that no row stands before a row the comparator
    puts strictly first. *)
Theorem filteredBets_sorted_permutation (bets : list HistoricalBet)
    (sf : StatusFilter) (f : SortField) (d : SortDir) :
  Permutation (filteredBets getTime bets sf f d)
              (filter (status_matches sf) bets)
  /\ (forall bet, In bet (filteredBets getTime bets sf f d) <->
                  In bet bets /\ (sf = all \/ sf = only (History.status bet)))
  /\ ((f = by_date -> Forall (fun b => getTime (date b) <> None) bets) ->
      StronglySorted
        (fun a b => exists v, compareFn getTime f d a b = Some v /\ v <= 0)
        (filteredBets getTime bets sf f d)).
Proof.
  split; [apply sort_by_perm|]. split; [|apply filteredBets_sorted].
  intros bet. split.
  - intros H. apply (Permutation_in _ (sort_by_perm _ _)) in H.
    apply filter_In in H as [Hin Hm]. split; [exact Hin|].
    destruct sf as [|s]; [now left|right]. simpl in Hm.
    destruct (History.status bet), s; simpl in Hm; congruence.
  - intros [Hin Hs].
    apply (Permutation_in _ (Permutation_sym (sort_by_perm _ _))).
    apply filter_In. split; [exact Hin|].
    destruct Hs as [->| ->]; simpl; [reflexivity|].
    now destruct (History.status bet).
Qed.

(** X23: the direction means opposite things for the date column and
    for the other two: when every date parses, ['desc'] shows the dates
    from the oldest to the newest and ['asc'] from the newest to the
    oldest, while P&L and edge run from the largest to the smallest with
    ['desc'] and from the smallest to the largest with ['asc']. *)
Theorem sort_direction_by_column (bets : list HistoricalBet)
    (sf : StatusFilter) :
  (Forall (fun b => getTime (date b) <> None) bets ->
   StronglySorted
     (fun a b => exists ta tb, getTime (date a) = Some ta
                               /\ getTime (date b) = Some tb
                               /\ (ta <= tb)%Z)
     (filteredBets getTime bets sf by_date desc)
   /\ StronglySorted
        (fun a b => exists ta tb, getTime (date a) = Some ta
                                  /\ getTime (date b) = Some tb
                                  /\ (tb <= ta)%Z)
        (filteredBets getTime bets sf by_date asc))
  /\ StronglySorted (fun a b => pnl b <= pnl a)
                    (filteredBets getTime bets sf by_pnl desc)
  /\ StronglySorted (fun a b => pnl a <= pnl b)
                    (filteredBets getTime bets sf by_pnl asc)
  /\ StronglySorted (fun a b => History.edge b <= History.edge a)
                    (filteredBets getTime bets sf by_edge desc)
  /\ StronglySorted (fun a b => History.edge a <= History.edge b)
                    (filteredBets getTime bets sf by_edge asc).
Proof.
  split; [intros Hparse; split|repeat split];
    (eapply StronglySorted_weaken;
     [|apply filteredBets_sorted; try discriminate; intros _; exact Hparse
      || (apply filteredBets_sorted; discriminate)]);
    intros a b (v & E & Hv); unfold compareFn in E; cbn [field_eqb] in E.
  1,2: destruct (getTime (date b)) as [tb|]; [|discriminate];
       destruct (getTime (date a)) as [ta|]; [|discriminate];
       injection E as <-; exists ta, tb;
       split; [reflexivity|]; split; [reflexivity|];
       rewrite inject_Z_sub in Hv; cbn [mult] in Hv;
       rewrite Zle_Qle; lra.
  all: injection E as <-; cbn [mult] in Hv; lra.
Qed.

Lemma count_status_partition (bets : list HistoricalBet) :
  (count_status won bets + count_status lost bets
   + count_status History.pending bets + count_status void bets
   = List.length bets)%nat.
Proof.
  unfold count_status. induction bets as [|b bets IH]; simpl; [reflexivity|].
  destruct (History.status b); simpl; lia.
Qed.

(** X24: the header counts agree with the table: the number of rows
    shown under a status filter is the number of bets with that status,
    under 'all' it is the total, and won, lost, pending and void bets
    add up to the total, so the three counts shown fall short of the
    total by the number of void bets. *)
Theorem stats_agree_with_rows (bets : list HistoricalBet)
    (f : SortField) (d : SortDir) :
  List.length (filteredBets getTime bets all f d) = total (stats bets)
  /\ List.length (filteredBets getTime bets (only won) f d)
     = n_won (stats bets)
  /\ List.length (filteredBets getTime bets (only lost) f d)
     = n_lost (stats bets)
  /\ List.length (filteredBets getTime bets (only History.pending) f d)
     = n_pending (stats bets)
  /\ (n_won (stats bets) + n_lost (stats bets) + n_pending (stats bets)
      + count_status void bets = total (stats bets))%nat.
Proof.
  unfold filteredBets.
  repeat split; try (rewrite (Permutation_length (sort_by_perm _ _))).
  - simpl. f_equal.
    induction bets as [|b bets IH]; simpl; [reflexivity|]. now rewrite IH.
  - reflexivity.
  - reflexivity.
  - reflexivity.
  - apply count_status_partition.
Qed.

End HistoryPage.

Lemma filteredBets_sorted_permutation_witness :
  StronglySorted
    (fun a b => exists v, compareFn sample_getTime by_date desc a b = Some v
                          /\ v <= 0)
    (filteredBets sample_getTime sample_bets all by_date desc).
Proof.
  apply (proj2 (proj2 (filteredBets_sorted_permutation sample_getTime
                         sample_bets all by_date desc))).
  intros _. repeat constructor; discriminate.
Defined.

Lemma sort_direction_by_column_witness :
  StronglySorted
    (fun a b => exists ta tb, sample_getTime (date a) = Some ta
                              /\ sample_getTime (date b) = Some tb
                              /\ (ta <= tb)%Z)
    (filteredBets sample_getTime sample_bets all by_date desc).
Proof.
  apply (proj1 (sort_direction_by_column sample_getTime sample_bets all)).
  repeat constructor; discriminate.
Defined.
